(** * chess-image-generator: the board layout and composition algorithm

    A shallow embedding of [ChessImageGenerator] (the highlight-capable
    variant and its older sibling without highlights) together with the
    properties of its orientation transform, square colouring, label
    drawing, highlight resolution, position loading and readiness
    protocol.

    JavaScript numbers are idealised as exact rationals ([Q]) for pixel
    coordinates and as integers ([Z]) for loop counters; JavaScript
    strings are ASCII strings.  The rules engine (chess.js) and the
    rasteriser (canvas) are external collaborators and appear as type
    classes. *)

From Stdlib Require Import ZArith QArith String Ascii List Lia DecimalString.
From stdpp Require Import base option list strings gmap.

Local Open Scope string_scope.
Local Open Scope Z_scope.
Local Open Scope list_scope.

(** ** JavaScript values and string primitives *)

(** The values an option, a highlight entry or a computed square name can
    hold.  [JObject] stands for any object, array or function. *)
Inductive JsVal : Type :=
  | JUndefined
  | JNull
  | JBool (b : bool)
  | JNum (n : Z)
  | JNaN
  | JStr (s : string)
  | JObject.

(** ToBoolean: [undefined], [null], [false], [0], [NaN] and the empty string
    are falsy, everything else is truthy. *)
Definition truthy (v : JsVal) : bool :=
  match v with
  | JUndefined | JNull | JNaN => false
  | JBool b => b
  | JNum n => negb (n =? 0)%Z
  | JStr s => negb (String.eqb s "")
  | JObject => true
  end.

(** [v === b] for a boolean literal [b]. *)
Definition strictEqBool (v : JsVal) (b : bool) : bool :=
  match v with
  | JBool b' => Bool.eqb b' b
  | _ => false
  end.

(** Number-to-string conversion of an integer, as performed by a template
    literal or by [+] with a string operand. *)
Definition numToString (n : Z) : string :=
  NilZero.string_of_int (Z.to_int n).

(** [s[k]]: the one-character string at index [k], or [undefined] ([None])
    when [k] is out of range. *)
Definition strAt (s : string) (k : Z) : option string :=
  if (k <? 0)%Z then None
  else match String.get (Z.to_nat k) s with
       | Some c => Some (String c EmptyString)
       | None => None
       end.

(** [a + n] where [a] is a string or [undefined] and [n] a number: string
    concatenation, or [NaN] when [a] is [undefined]. *)
Definition jsPlus (a : option string) (n : Z) : JsVal :=
  match a with
  | Some s => JStr (s +:+ numToString n)
  | None => JNaN
  end.

(** The text drawn for a value that is a string or [undefined]. *)
Definition textOf (a : option string) : string :=
  match a with
  | Some s => s
  | None => "undefined"
  end.

(** ToPropertyKey, for the [in] operator and for indexing. *)
Definition propertyKey (v : JsVal) : string :=
  match v with
  | JUndefined => "undefined"
  | JNull => "null"
  | JBool true => "true"
  | JBool false => "false"
  | JNum n => numToString n
  | JNaN => "NaN"
  | JStr s => s
  | JObject => "[object Object]"
  end.

Definition lowerAscii (c : ascii) : ascii :=
  let n := nat_of_ascii c in
  if ((65 <=? n)%nat && (n <=? 90)%nat)%bool then ascii_of_nat (n + 32) else c.

(** [s.toLowerCase()]. *)
Fixpoint toLowerCase (s : string) : string :=
  match s with
  | EmptyString => EmptyString
  | String c t => String (lowerAscii c) (toLowerCase t)
  end.

(** [hay.includes(needle)] on strings: substring search. *)
Fixpoint includes (hay needle : string) : bool :=
  if String.prefix needle hay then true
  else match hay with
       | EmptyString => false
       | String _ t => includes t needle
       end.

(** White space characters: space, tab, line feed, vertical tab, form feed
    and carriage return. *)
Definition isSpace (c : ascii) : bool :=
  let n := nat_of_ascii c in
  ((n =? 32)%nat || ((9 <=? n)%nat && (n <=? 13)%nat))%bool.

(** ** Configuration tables

    [config/index] exports the column letters, the two piece alphabets, the
    default option values and the sprite file table.  The module is not
    among the sources, so its exports are the fields of a record and every
    definition below takes the record as a parameter.  The column letters
    and the alphabets are strings: [cols[j]] is a one-character string and
    [includes] is the substring test, which on a one-character cell is
    membership in the alphabet. *)
Record Config : Type := {
  cols : string;
  white : string;
  black : string;
  defaultSize : Q;
  defaultLight : string;
  defaultHighlight : string;
  defaultDark : string;
  defaultStyle : string;
  filePaths : gmap string string
}.

(** ** Collaborators *)

(** A piece object of the rules engine: [{ type, color }]. *)
Record Piece : Type := {
  piece_type : string;
  piece_color : string
}.

(** The part of chess.js the generator calls.  The engine object is
    mutable: every method takes the engine state and returns the new one
    (next to its return value, when the caller reads it). *)
Class RulesEngine (Chess : Type) : Type := {
  chess_new : Chess;
  chess_load_pgn : string -> Chess -> bool * Chess;
  chess_load : string -> Chess -> bool * Chess;
  chess_clear : Chess -> Chess;
  chess_put : Piece -> JsVal -> Chess -> Chess;
  chess_get : JsVal -> Chess -> option Piece
}.

Inductive Font : Type :=
  | DefaultFont
  | BoldPtArial (pt : Q).

Record TextMetrics : Type := {
  actualBoundingBoxAscent : Q;
  metrics_width : Q
}.

(** One call on the 2D context that leaves a mark on the canvas, with the
    fill style and font in force when it was made. *)
Inductive DrawOp (Image : Type) : Type :=
  | FillRect (style : string) (x y w h : Q)
  | FillText (style : string) (fnt : Font) (text : string) (x y : Q)
  | DrawImage (img : Image) (x y w h : Q).
Arguments FillRect {Image}.
Arguments FillText {Image}.
Arguments DrawImage {Image}.

Record Canvas (Image : Type) : Type := {
  canvas_width : Q;
  canvas_height : Q;
  drawn : list (DrawOp Image)
}.
Arguments canvas_width {Image}.
Arguments canvas_height {Image}.
Arguments drawn {Image}.
Arguments Build_Canvas {Image}.

(** The canvas library and the helpers around it: text measurement under a
    font, [loadImage] (whose promise may reject), [toBuffer] of
    [./buffer.js] and the module directory [__dirname]. *)
Class Rasterizer (Image Buffer : Type) : Type := {
  measure : Font -> string -> TextMetrics;
  loadImage : string -> option Image;
  toBuffer : Canvas Image -> Buffer;
  dirname : string
}.

(** ** Exceptions and the drawing monad *)

Inductive exn : Type :=
  | Error (message : string)
  | ImageLoadFailure (path : string).

(** The error classes of the specification, by the message thrown. *)
Definition NotReady : exn := Error "Load a position first".
Definition InvalidNotation (kind : string) : exn :=
  Error (kind +:+ " could not be read successfully").

Definition isNotReady {A : Type} (r : exn + A) : bool :=
  match r with
  | inl (Error m) => String.eqb m "Load a position first"
  | _ => false
  end.

(** The 2D context: the current fill style and font, and the canvas drawn
    so far. *)
Record Ctx (Image : Type) : Type := {
  fillStyle : string;
  font : Font;
  canvas : Canvas Image
}.
Arguments fillStyle {Image}.
Arguments font {Image}.
Arguments canvas {Image}.
Arguments Build_Ctx {Image}.

(** A computation on the context that may throw. *)
Definition Draw (Image A : Type) : Type := Ctx Image -> exn + (A * Ctx Image).

#[global] Instance Draw_ret {Image : Type} : MRet (Draw Image) :=
  fun A a ctx => inr (a, ctx).

#[global] Instance Draw_bind {Image : Type} : MBind (Draw Image) :=
  fun A B k m ctx =>
    match m ctx with
    | inl e => inl e
    | inr (a, ctx') => k a ctx'
    end.

Definition when {Image : Type} (b : bool) (m : Draw Image unit) : Draw Image unit :=
  if b then m else mret tt.

(** [for (let i = lo; i < lo + n; i += 1) body(i)]. *)
Fixpoint forUpTo {Image : Type} (n : nat) (i : Z) (body : Z -> Draw Image unit)
  : Draw Image unit :=
  match n with
  | O => mret tt
  | S n' => body i;; forUpTo n' (i + 1) body
  end.

(** [for (let i = lo; i < arr.length; i += 1) body(i, arr[i])], on a state
    threaded through the iterations. *)
Fixpoint forEachIndex {A S : Type} (arr : list A) (i : Z) (body : Z -> A -> S -> S) (s : S) : S :=
  match arr with
  | [] => s
  | a :: rest => forEachIndex rest (i + 1) body (body i a s)
  end.

Definition createCanvas {Image : Type} (w h : Q) : Canvas Image :=
  {| canvas_width := w; canvas_height := h; drawn := [] |}.

Definition getContext {Image : Type} (c : Canvas Image) : Ctx Image :=
  {| fillStyle := "#000000"; font := DefaultFont; canvas := c |}.

Definition setFillStyle {Image : Type} (style : string) : Draw Image unit :=
  fun ctx => inr (tt, {| fillStyle := style; font := font ctx; canvas := canvas ctx |}).

Definition setFont {Image : Type} (f : Font) : Draw Image unit :=
  fun ctx => inr (tt, {| fillStyle := fillStyle ctx; font := f; canvas := canvas ctx |}).

Definition emit {Image : Type} (op : Ctx Image -> DrawOp Image) : Draw Image unit :=
  fun ctx =>
    inr (tt, {| fillStyle := fillStyle ctx; font := font ctx;
                canvas := {| canvas_width := canvas_width (canvas ctx);
                             canvas_height := canvas_height (canvas ctx);
                             drawn := drawn (canvas ctx) ++ [op ctx] |} |}).

Definition fillRect {Image : Type} (x y w h : Q) : Draw Image unit :=
  emit (fun ctx => FillRect (fillStyle ctx) x y w h).

Definition fillText {Image : Type} (text : string) (x y : Q) : Draw Image unit :=
  emit (fun ctx => FillText (fillStyle ctx) (font ctx) text x y).

Definition drawImage {Image : Type} (img : Image) (x y w h : Q) : Draw Image unit :=
  emit (fun _ => DrawImage img x y w h).

Definition measureText {Image Buffer : Type} `{Rasterizer Image Buffer} (text : string)
  : Draw Image TextMetrics :=
  fun ctx => inr (measure (font ctx) text, ctx).

(** [path.join(__dirname, image)]. *)
Definition pathJoin (dir image : string) : string := dir +:+ "/" +:+ image.

(** [await loadImage(path)]: a rejected promise aborts the render. *)
Definition awaitLoadImage {Image Buffer : Type} `{Rasterizer Image Buffer} (path : string)
  : Draw Image Image :=
  fun ctx =>
    match loadImage path with
    | Some img => inr (img, ctx)
    | None => inl (ImageLoadFailure path)
    end.

(** ** The generator object *)

(** The constructor's [options] argument.  An unset numeric or string
    option is [None]; the two flags are kept as JavaScript values because
    the constructor compares them strictly against a boolean literal. *)
Record Options : Type := {
  opt_size : option Q;
  opt_light : option string;
  opt_dark : option string;
  opt_highlight : option string;
  opt_style : option string;
  opt_drawLabels : JsVal;
  opt_labelLight : option string;
  opt_labelDark : option string;
  opt_flipped : JsVal
}.

(** The empty options object [{}]. *)
Definition noOptions : Options :=
  {| opt_size := None; opt_light := None; opt_dark := None; opt_highlight := None;
     opt_style := None; opt_drawLabels := JUndefined; opt_labelLight := None;
     opt_labelDark := None; opt_flipped := JUndefined |}.

(** [o || d] for a numeric option: [undefined] and [0] are falsy. *)
Definition numOr (o : option Q) (d : Q) : Q :=
  match o with
  | Some q => if Qeq_bool q 0 then d else q
  | None => d
  end.

(** [o || d] for a string option: [undefined] and the empty string are falsy. *)
Definition strOr (o : option string) (d : string) : string :=
  match o with
  | Some s => if String.eqb s "" then d else s
  | None => d
  end.

(** The fields of a [ChessImageGenerator] instance.  [highlightedSquares]
    is [None] when it was set to [null] or [undefined], and otherwise the
    finite map of the object's own properties (what an object inherits
    from its prototype is left out: no square is named after such a
    property). *)
Record Generator (Chess : Type) : Type := {
  chess : Chess;
  size : Q;
  light : string;
  dark : string;
  highlight : string;
  style : string;
  drawLabels : bool;
  labelLight : string;
  labelDark : string;
  flipped : bool;
  highlightedSquares : option (gmap string JsVal);
  ready : bool
}.
Arguments chess {Chess}.
Arguments size {Chess}.
Arguments light {Chess}.
Arguments dark {Chess}.
Arguments highlight {Chess}.
Arguments style {Chess}.
Arguments drawLabels {Chess}.
Arguments labelLight {Chess}.
Arguments labelDark {Chess}.
Arguments flipped {Chess}.
Arguments highlightedSquares {Chess}.
Arguments ready {Chess}.
Arguments Build_Generator {Chess}.

(** Assignments to the three fields the methods write. *)
Definition set_chess {Chess : Type} (c : Chess) (g : Generator Chess) : Generator Chess :=
  Build_Generator c (size g) (light g) (dark g) (highlight g) (style g) (drawLabels g)
    (labelLight g) (labelDark g) (flipped g) (highlightedSquares g) (ready g).

Definition set_ready {Chess : Type} (b : bool) (g : Generator Chess) : Generator Chess :=
  Build_Generator (chess g) (size g) (light g) (dark g) (highlight g) (style g) (drawLabels g)
    (labelLight g) (labelDark g) (flipped g) (highlightedSquares g) b.

Definition set_highlightedSquares {Chess : Type} (m : option (gmap string JsVal))
    (g : Generator Chess) : Generator Chess :=
  Build_Generator (chess g) (size g) (light g) (dark g) (highlight g) (style g) (drawLabels g)
    (labelLight g) (labelDark g) (flipped g) m (ready g).

(** The orientation transform of [generateBuffer]:
    [row = this.flipped ? r => 7 - r + 1 : r => r + 1] and
    [col = this.flipped ? c => cols[7 - c] : c => cols[c]]. *)
Definition row (flipped : bool) : Z -> Z :=
  if flipped then (fun r => 7 - r + 1) else (fun r => r + 1).

Definition col (cfg : Config) (flipped : bool) : Z -> option string :=
  if flipped then (fun c => strAt (cols cfg) (7 - c)) else (fun c => strAt (cols cfg) c).

(** [k % 2 == 0], for a loop index or a sum of two. *)
Definition isEven (k : Z) : bool := (k mod 2 =? 0)%Z.

Section Methods.
Context {Chess Image Buffer : Type}.
Context `{!RulesEngine Chess} `{!Rasterizer Image Buffer}.
Variable cfg : Config.

(** [function ChessImageGenerator(options = {})]. *)
Definition ChessImageGenerator (options : Options) : Generator Chess :=
  let this_light := strOr (opt_light options) (defaultLight cfg) in
  let this_dark := strOr (opt_dark options) (defaultDark cfg) in
  {| chess := chess_new;
     size := numOr (opt_size options) (defaultSize cfg);
     light := this_light;
     dark := this_dark;
     highlight := strOr (opt_highlight options) (defaultHighlight cfg);
     style := strOr (opt_style options) (defaultStyle cfg);
     drawLabels := negb (strictEqBool (opt_drawLabels options) false);
     labelLight := strOr (opt_labelLight options) this_dark;
     labelDark := strOr (opt_labelDark options) this_light;
     flipped := negb (strictEqBool (opt_flipped options) true);
     highlightedSquares := Some ∅;
     ready := false |}.

(** [loadPGN(pgn)]: the result is the exception thrown, if any, and the
    object as the call leaves it. *)
Definition loadPGN (pgn : string) (g : Generator Chess) : (exn + unit) * Generator Chess :=
  let (ok, c) := chess_load_pgn pgn (chess g) in
  if negb ok then (inl (InvalidNotation "PGN"), set_chess c g)
  else (inr tt, set_ready true (set_chess c g)).

(** [loadFEN(fen)]. *)
Definition loadFEN (fen : string) (g : Generator Chess) : (exn + unit) * Generator Chess :=
  let (ok, c) := chess_load fen (chess g) in
  if negb ok then (inl (InvalidNotation "FEN"), set_chess c g)
  else (inr tt, set_ready true (set_chess c g)).

(** The test of [loadArray] on one cell:
    [cell !== "" && black.includes(cell.toLowerCase())]. *)
Definition recognized (cell : string) : bool :=
  negb (String.eqb cell "") && includes (black cfg) (toLowerCase cell).

(** The piece object [loadArray] builds for a cell. *)
Definition pieceOfCell (cell : string) : Piece :=
  {| piece_type := toLowerCase cell;
     piece_color := if includes (white cfg) cell then "w" else "b" |}.

(** [loadArray(array)]. *)
Definition loadArray (array : list (list string)) (g : Generator Chess) : Generator Chess :=
  let c0 := chess_clear (chess g) in
  let c :=
    forEachIndex array 0 (fun i array_i c =>
      forEachIndex array_i 0 (fun j cell c =>
        if recognized cell
        then chess_put (pieceOfCell cell) (jsPlus (strAt (cols cfg) j) (8 - i)) c
        else c) c) c0 in
  set_ready true (set_chess c g).

(** [setHighlightedSquares(squares)]. *)
Definition setHighlightedSquares (squares : option (gmap string JsVal))
    (g : Generator Chess) : Generator Chess :=
  set_highlightedSquares squares g.

(** [getSquareHighlight(square)]; [None] is [null].  The [in] test and the
    indexing are lookups among the own properties of the map.  On a plain
    object the code also finds what [Object.prototype] provides under
    names such as [toString] or [constructor]; none of these is the name
    of a square, and the properties of this function below are stated for
    square names. *)
Definition getSquareHighlight (square : JsVal) (g : Generator Chess) : option string :=
  match highlightedSquares g with
  | None => None
  | Some squares =>
      if negb (truthy square) then None
      else match squares !! propertyKey square with
           | None => None
           | Some squareHighlight =>
               if negb (truthy squareHighlight) then None
               else match squareHighlight with
                    | JStr s => Some s
                    | _ => Some (highlight g)
                    end
           end
  end.

(** *** Rendering *)

(** The geometry of cell [(i, j)]: [x = (this.size / 8) * j],
    [y = (this.size / 8) * (7 - i)], [width = height = this.size / 8].
    The arithmetic is exact; it is the arithmetic of the code whenever
    the size is a whole number (up to 2^50), for which no operation here
    rounds. *)
Definition cellX (g : Generator Chess) (j : Z) : Q := ((size g / 8) * inject_Z j)%Q.
Definition cellY (g : Generator Chess) (i : Z) : Q := ((size g / 8) * inject_Z (7 - i))%Q.
Definition cellSide (g : Generator Chess) : Q := (size g / 8)%Q.

(** [fontSize = this.size / 8 / 10] and [textPadding = fontSize * 0.5]. *)
Definition fontSize (g : Generator Chess) : Q := (size g / 8 / 10)%Q.
Definition textPadding (g : Generator Chess) : Q := (fontSize g * (1 # 2))%Q.

(** [col(j) + row(i)], the name of the square shown in cell [(i, j)]. *)
Definition squareAt (g : Generator Chess) (i j : Z) : JsVal :=
  jsPlus (col cfg (flipped g) j) (row (flipped g) i).

(** "Fill Dark Square". *)
Definition fillDarkSquare (g : Generator Chess) (i j : Z) : Draw Image unit :=
  when ((i + j) mod 2 =? 0)%Z
    (setFillStyle (dark g);;
     fillRect (cellX g j) (cellY g i) (cellSide g) (cellSide g)).

(** "Draw Row Numbers". *)
Definition drawRowNumbers (g : Generator Chess) (i j : Z) : Draw Image unit :=
  when (drawLabels g && (j =? 0)%Z)
    (let text := numToString (row (flipped g) i) in
     m ← measureText text;
     let letterHeight := actualBoundingBoxAscent m in
     setFillStyle (if (i mod 2 =? 0)%Z then labelDark g else labelLight g);;
     fillText text
       (cellX g j + textPadding g)%Q
       (cellY g i + letterHeight + textPadding g)%Q).

(** "Draw Column Letters". *)
Definition drawColumnLetters (g : Generator Chess) (i j : Z) : Draw Image unit :=
  when (drawLabels g && (i =? 0)%Z)
    (let text := textOf (col cfg (flipped g) j) in
     m ← measureText text;
     let letterWidth := metrics_width m in
     setFillStyle (if (j mod 2 =? 0)%Z then labelDark g else labelLight g);;
     fillText text
       (cellX g j + cellSide g - letterWidth - textPadding g)%Q
       (cellY g i + cellSide g - textPadding g)%Q).

(** "Highlight Square". *)
Definition highlightSquare (g : Generator Chess) (i j : Z) : Draw Image unit :=
  match getSquareHighlight (squareAt g i j) g with
  | Some h =>
      when (negb (String.eqb h ""))
        (setFillStyle h;;
         fillRect (cellX g j) (cellY g i) (cellSide g) (cellSide g))
  | None => mret tt
  end.

(** The sprite path of a piece:
    [resources/${this.style}/${filePaths[`${piece.color}${piece.type}`]}.png]. *)
Definition spritePath (g : Generator Chess) (piece : Piece) : string :=
  "resources/" +:+ style g +:+ "/" +:+
  textOf (filePaths cfg !! (piece_color piece +:+ piece_type piece)) +:+ ".png".

(** The guard of "Draw Piece" on a piece object:
    [piece.type !== "" && black.includes(piece.type.toLowerCase())]. *)
Definition drawable (piece : Piece) : bool :=
  negb (String.eqb (piece_type piece) "") &&
  includes (black cfg) (toLowerCase (piece_type piece)).

(** "Draw Piece". *)
Definition drawPiece (g : Generator Chess) (i j : Z) : Draw Image unit :=
  match chess_get (squareAt g i j) (chess g) with
  | Some piece =>
      when (drawable piece)
        (imageFile ← awaitLoadImage (pathJoin dirname (spritePath g piece));
         drawImage imageFile (cellX g j) (cellY g i) (cellSide g) (cellSide g))
  | None => mret tt
  end.

(** The body of the inner loop. *)
Definition drawCell (g : Generator Chess) (i j : Z) : Draw Image unit :=
  fillDarkSquare g i j;;
  drawRowNumbers g i j;;
  drawColumnLetters g i j;;
  highlightSquare g i j;;
  drawPiece g i j.

(** Everything [generateBuffer] does on the context. *)
Definition paint (g : Generator Chess) : Draw Image unit :=
  setFillStyle (light g);;
  fillRect 0 0 (size g) (size g);;
  setFont (BoldPtArial (fontSize g));;
  forUpTo 8 0 (fun i => forUpTo 8 0 (fun j => drawCell g i j)).

(** The canvas [generateBuffer] hands to [toBuffer], or the exception that
    rejects its promise. *)
Definition generateCanvas (g : Generator Chess) : exn + Canvas Image :=
  if negb (ready g) then inl NotReady
  else match paint g (getContext (createCanvas (size g) (size g))) with
       | inl e => inl e
       | inr (_, ctx) => inr (canvas ctx)
       end.

(** [async generateBuffer()]. *)
Definition generateBuffer (g : Generator Chess) : exn + Buffer :=
  match generateCanvas g with
  | inl e => inl e
  | inr c => inr (toBuffer c)
  end.

(** [async generatePNG(pngPath)]: on success, the buffer is written to
    [pngPath]. *)
Definition generatePNG (pngPath : string) (g : Generator Chess) : exn + (string * Buffer) :=
  if negb (ready g) then inl NotReady
  else match generateBuffer g with
       | inl e => inl e
       | inr buffer => inr (pngPath, buffer)
       end.
End Methods.

(** ** The sibling variant without highlights

    [src/chess-image-generator.js] is the same object without the
    [highlight] and [highlightedSquares] fields: its constructor and
    loaders read as above, and its [generateBuffer] keeps [col] numeric
    and indexes [cols] at each use.  The fields it lacks are left
    untouched by the definitions below. *)
Module Base.

(** [col = this.flipped ? c => 7 - c : c => c]. *)
Definition col (flipped : bool) : Z -> Z :=
  if flipped then (fun c => 7 - c) else (fun c => c).

(** [row] is written as in the other variant. *)
Definition row (flipped : bool) : Z -> Z :=
  if flipped then (fun r => 7 - r + 1) else (fun r => r + 1).

Section Methods.
Context {Chess Image Buffer : Type}.
Context `{!RulesEngine Chess} `{!Rasterizer Image Buffer}.
Variable cfg : Config.

(** [cols[col(j)]], the text of a column label. *)
Definition columnLetter (g : Generator Chess) (j : Z) : option string :=
  strAt (cols cfg) (col (flipped g) j).

(** [cols[col(j)] + row(i)], the argument of [this.chess.get]. *)
Definition squareAt (g : Generator Chess) (i j : Z) : JsVal :=
  jsPlus (strAt (cols cfg) (col (flipped g) j)) (row (flipped g) i).

(** "Draw Column Letters". *)
Definition drawColumnLetters (g : Generator Chess) (i j : Z) : Draw Image unit :=
  when (drawLabels g && (i =? 0)%Z)
    (let text := textOf (columnLetter g j) in
     m ← measureText text;
     let letterWidth := metrics_width m in
     setFillStyle (if (j mod 2 =? 0)%Z then labelDark g else labelLight g);;
     fillText text
       (cellX g j + cellSide g - letterWidth - textPadding g)%Q
       (cellY g i + cellSide g - textPadding g)%Q).

(** "Draw Piece Image". *)
Definition drawPiece (g : Generator Chess) (i j : Z) : Draw Image unit :=
  match chess_get (squareAt g i j) (chess g) with
  | Some piece =>
      when (drawable cfg piece)
        (imageFile ← awaitLoadImage (pathJoin dirname (spritePath cfg g piece));
         drawImage imageFile (cellX g j) (cellY g i) (cellSide g) (cellSide g))
  | None => mret tt
  end.

Definition drawCell (g : Generator Chess) (i j : Z) : Draw Image unit :=
  fillDarkSquare g i j;;
  drawRowNumbers g i j;;
  drawColumnLetters g i j;;
  drawPiece g i j.

Definition paint (g : Generator Chess) : Draw Image unit :=
  setFillStyle (light g);;
  fillRect 0 0 (size g) (size g);;
  setFont (BoldPtArial (fontSize g));;
  forUpTo 8 0 (fun i => forUpTo 8 0 (fun j => drawCell g i j)).

Definition generateCanvas (g : Generator Chess) : exn + Canvas Image :=
  if negb (ready g) then inl NotReady
  else match paint g (getContext (createCanvas (size g) (size g))) with
       | inl e => inl e
       | inr (_, ctx) => inr (canvas ctx)
       end.

End Methods.
End Base.

(** ** The layers of a rendered board

    What each step of the cell loop leaves on the canvas, as a list of
    draw operations; [generateCanvas] is related to these lists below. *)
Section Layers.
Context {Chess Image Buffer : Type}.
Context `{!RulesEngine Chess} `{!Rasterizer Image Buffer}.
Variable cfg : Config.

(** The base fill of the whole canvas. *)
Definition boardFill (g : Generator Chess) : DrawOp Image :=
  FillRect (light g) 0 0 (size g) (size g).

Definition darkSquareLayer (g : Generator Chess) (i j : Z) : list (DrawOp Image) :=
  if isEven (i + j)
  then [FillRect (dark g) (cellX g j) (cellY g i) (cellSide g) (cellSide g)]
  else [].

Definition rowNumberLayer (g : Generator Chess) (i j : Z) : list (DrawOp Image) :=
  if drawLabels g && (j =? 0)%Z
  then
    let fnt := BoldPtArial (fontSize g) in
    let text := numToString (row (flipped g) i) in
    [FillText (if isEven i then labelDark g else labelLight g) fnt text
       (cellX g j + textPadding g)%Q
       (cellY g i + actualBoundingBoxAscent (measure fnt text) + textPadding g)%Q]
  else [].

Definition columnLetterLayer (g : Generator Chess) (i j : Z) : list (DrawOp Image) :=
  if drawLabels g && (i =? 0)%Z
  then
    let fnt := BoldPtArial (fontSize g) in
    let text := textOf (col cfg (flipped g) j) in
    [FillText (if isEven j then labelDark g else labelLight g) fnt text
       (cellX g j + cellSide g - metrics_width (measure fnt text) - textPadding g)%Q
       (cellY g i + cellSide g - textPadding g)%Q]
  else [].

Definition highlightLayer (g : Generator Chess) (i j : Z) : list (DrawOp Image) :=
  match getSquareHighlight (squareAt cfg g i j) g with
  | Some h =>
      if String.eqb h "" then []
      else [FillRect h (cellX g j) (cellY g i) (cellSide g) (cellSide g)]
  | None => []
  end.

(** The piece to draw in cell [(i, j)], if any. *)
Definition pieceAt (g : Generator Chess) (i j : Z) : option Piece :=
  match chess_get (squareAt cfg g i j) (chess g) with
  | Some piece => if drawable cfg piece then Some piece else None
  | None => None
  end.

(** The sprite layer of a cell, or the failure of its image load. *)
Definition pieceLayer (g : Generator Chess) (i j : Z) : exn + list (DrawOp Image) :=
  match pieceAt g i j with
  | Some piece =>
      let path := pathJoin dirname (spritePath cfg g piece) in
      match loadImage path with
      | Some img => inr [DrawImage img (cellX g j) (cellY g i) (cellSide g) (cellSide g)]
      | None => inl (ImageLoadFailure path)
      end
  | None => inr []
  end.

(** The sprite layer once all image loads are known to have succeeded. *)
Definition pieceOps (g : Generator Chess) (i j : Z) : list (DrawOp Image) :=
  match pieceLayer g i j with
  | inr ops => ops
  | inl _ => []
  end.

(** One result after another: the first failure, or all the operations. *)
Definition andThen {X : Type} (r1 r2 : exn + list X) : exn + list X :=
  match r1 with
  | inl e => inl e
  | inr l1 => match r2 with
              | inl e => inl e
              | inr l2 => inr (l1 ++ l2)
              end
  end.

Fixpoint inSequence {X : Type} (rs : list (exn + list X)) : exn + list X :=
  match rs with
  | [] => inr []
  | r :: rest => andThen r (inSequence rest)
  end.

(** The indices [i, i + 1, ..., i + n - 1] visited by [forUpTo n i]. *)
Fixpoint indices (n : nat) (i : Z) : list Z :=
  match n with
  | O => []
  | S n' => i :: indices n' (i + 1)
  end.

Definition cellLayers (g : Generator Chess) (i j : Z) : exn + list (DrawOp Image) :=
  andThen (inr (darkSquareLayer g i j ++ rowNumberLayer g i j ++
                columnLetterLayer g i j ++ highlightLayer g i j))
          (pieceLayer g i j).

Definition boardLayers (g : Generator Chess) : exn + list (DrawOp Image) :=
  inSequence (map (fun i => inSequence (map (fun j => cellLayers g i j) (indices 8 0)))
                  (indices 8 0)).

(** The operations of cell [(i, j)] in a render that succeeded. *)
Definition cellOps (g : Generator Chess) (i j : Z) : list (DrawOp Image) :=
  darkSquareLayer g i j ++ rowNumberLayer g i j ++ columnLetterLayer g i j ++
  highlightLayer g i j ++ pieceOps g i j.

(** The 64 cells in drawing order. *)
Definition cells : list (Z * Z) :=
  flat_map (fun i => map (fun j => (i, j)) (indices 8 0)) (indices 8 0).

Definition isDrawImage (op : DrawOp Image) : bool :=
  match op with
  | DrawImage _ _ _ _ _ => true
  | _ => false
  end.

Definition isFillRect (op : DrawOp Image) : bool :=
  match op with
  | FillRect _ _ _ _ _ => true
  | _ => false
  end.

(** [performs F m r]: run on any context whose font is [F], the computation
    [m] either throws [e] ([r = inl e]) or appends exactly the operations
    [l] ([r = inr l]), leaving the font and the canvas size alone. *)
Definition performs (F : Font) (m : Draw Image unit) (r : exn + list (DrawOp Image)) : Prop :=
  forall ctx, font ctx = F ->
    match r with
    | inl e => m ctx = inl e
    | inr l =>
        exists ctx', m ctx = inr (tt, ctx') /\ font ctx' = F /\
          canvas_width (canvas ctx') = canvas_width (canvas ctx) /\
          canvas_height (canvas ctx') = canvas_height (canvas ctx) /\
          drawn (canvas ctx') = drawn (canvas ctx) ++ l
    end.

End Layers.

(** ** Sessions

    A renderer's life is a sequence of method calls on the object the
    constructor made. *)
Inductive Call : Type :=
  | CallLoadPGN (pgn : string)
  | CallLoadFEN (fen : string)
  | CallLoadArray (array : list (list string))
  | CallSetHighlightedSquares (squares : option (gmap string JsVal))
  | CallGenerateBuffer
  | CallGeneratePNG (pngPath : string).

Definition isLoad (c : Call) : bool :=
  match c with
  | CallLoadPGN _ | CallLoadFEN _ | CallLoadArray _ => true
  | _ => false
  end.

Definition returned {A : Type} (r : exn + A) : bool :=
  match r with
  | inr _ => true
  | inl _ => false
  end.

Section Sessions.
Context {Chess Image Buffer : Type}.
Context `{!RulesEngine Chess} `{!Rasterizer Image Buffer}.
Variable cfg : Config.

(** One call: whether it returned normally, and the object afterwards. *)
Definition perform (c : Call) (g : Generator Chess) : bool * Generator Chess :=
  match c with
  | CallLoadPGN pgn => let (r, g') := loadPGN pgn g in (returned r, g')
  | CallLoadFEN fen => let (r, g') := loadFEN fen g in (returned r, g')
  | CallLoadArray array => (true, loadArray cfg array g)
  | CallSetHighlightedSquares squares => (true, setHighlightedSquares squares g)
  | CallGenerateBuffer => (returned (generateBuffer cfg g), g)
  | CallGeneratePNG pngPath => (returned (generatePNG cfg pngPath g), g)
  end.

(** The object after a sequence of calls. *)
Fixpoint session (calls : list Call) (g : Generator Chess) : Generator Chess :=
  match calls with
  | [] => g
  | c :: rest => session rest (snd (perform c g))
  end.

(** Whether some load call of the sequence returned normally. *)
Fixpoint someLoadSucceeded (calls : list Call) (g : Generator Chess) : bool :=
  match calls with
  | [] => false
  | c :: rest =>
      (isLoad c && fst (perform c g)) || someLoadSucceeded rest (snd (perform c g))
  end.

End Sessions.

(** ** What [loadArray] asks of the rules engine *)
Section Placements.
Context {Chess : Type} `{!RulesEngine Chess}.
Variable cfg : Config.

(** The [put] issued for the cell at row [i], column [j], if any: the piece
    object and the square name it is put on. *)
Definition placementAt (i j : Z) (cell : string) : option (Piece * JsVal) :=
  if recognized cfg cell
  then Some (pieceOfCell cfg cell, jsPlus (strAt (cols cfg) j) (8 - i))
  else None.

(** The [put]s of one row, from column [j] on, in the order issued. *)
Fixpoint rowPlacements (i j : Z) (array_i : list string) : list (Piece * JsVal) :=
  match array_i with
  | [] => []
  | cell :: rest =>
      match placementAt i j cell with
      | Some p => p :: rowPlacements i (j + 1) rest
      | None => rowPlacements i (j + 1) rest
      end
  end.

(** The [put]s of a grid, from row [i] on, in the order issued. *)
Fixpoint placementsFrom (i : Z) (array : list (list string)) : list (Piece * JsVal) :=
  match array with
  | [] => []
  | array_i :: rest => rowPlacements i 0 array_i ++ placementsFrom (i + 1) rest
  end.

Definition placements (array : list (list string)) : list (Piece * JsVal) :=
  placementsFrom 0 array.

(** A sequence of [put] calls on the engine. *)
Definition applyPuts (puts : list (Piece * JsVal)) (c : Chess) : Chess :=
  fold_left (fun c p => chess_put (fst p) (snd p) c) puts c.

(** A grid none of whose cells holds a recognised piece code. *)
Definition noPieceCodes (array : list (list string)) : Prop :=
  forall array_i cell, In array_i array -> In cell array_i -> recognized cfg cell = false.

(** An engine on which no square of a cleared board holds a piece. *)
Definition clearEmptiesBoard : Prop :=
  forall (square : JsVal) (c : Chess), chess_get square (chess_clear c) = None.

(** An engine whose parser leaves the position alone when it rejects a
    text. *)
Definition rejectsAtomically : Prop :=
  forall (text : string) (c : Chess),
    (fst (chess_load text c) = false -> snd (chess_load text c) = c) /\
    (fst (chess_load_pgn text c) = false -> snd (chess_load_pgn text c) = c).

End Placements.

(** Column letters that name eight different files. *)
Definition filesDistinct (cfg : Config) : Prop :=
  forall j j' : Z, 0 <= j < 8 -> 0 <= j' < 8 ->
    strAt (cols cfg) j <> None /\
    (strAt (cols cfg) j = strAt (cols cfg) j' -> j = j').

(** The name of a square of the board, as [generateBuffer] and [loadArray]
    build it: one file character followed by a rank from 1 to 8. *)
Definition isSquareName (s : string) : Prop :=
  exists (file : ascii) (rank : Z), 1 <= rank <= 8 /\ s = String file (numToString rank).


(** ** A reference configuration and sample collaborators

    Used to run the definitions on concrete inputs. *)

(** Modelled from the spec: [config/index] is not among the sources.  The
    specification fixes the files as a to h with column 0 = file a, and the
    two alphabets as the upper-case and lower-case letters of pawn, bishop,
    knight, rook, queen and king; the default size, colours and style and
    the sprite file names are sample values. *)
Definition specConfig : Config :=
  {| cols := "abcdefgh";
     white := "PBNRQK";
     black := "pbnrqk";
     defaultSize := 480;
     defaultLight := "rgb(240, 217, 181)";
     defaultHighlight := "rgba(235, 97, 80, 0.8)";
     defaultDark := "rgb(181, 136, 99)";
     defaultStyle := "merida";
     filePaths := list_to_map
       [("wp", "WhitePawn"); ("wb", "WhiteBishop"); ("wn", "WhiteKnight");
        ("wr", "WhiteRook"); ("wq", "WhiteQueen"); ("wk", "WhiteKing");
        ("bp", "BlackPawn"); ("bb", "BlackBishop"); ("bn", "BlackKnight");
        ("br", "BlackRook"); ("bq", "BlackQueen"); ("bk", "BlackKing")] |}.

(** A sample rules engine: a board is a finite map from square names to
    pieces, [put] and [get] are insertion and lookup, and the parser knows
    one FEN text and one PGN text and rejects every other text, leaving
    the board as it was. *)
#[global] Instance sampleEngine : RulesEngine (gmap string Piece) :=
  {| chess_new := ∅;
     chess_load_pgn pgn board :=
       if String.eqb pgn "1. e4" then
         (true, {[ "e4" := {| piece_type := "p"; piece_color := "w" |} ]})
       else (false, board);
     chess_load fen board :=
       if String.eqb fen "8/8/8/8/8/8/8/4K3 w - - 0 1" then
         (true, {[ "e1" := {| piece_type := "k"; piece_color := "w" |} ]})
       else (false, board);
     chess_clear _ := ∅;
     chess_put piece square board :=
       match square with
       | JStr s => <[ s := piece ]> board
       | _ => board
       end;
     chess_get square board :=
       match square with
       | JStr s => board !! s
       | _ => None
       end |}.

(** A sample rasteriser: an image is the path it was loaded from, every
    load succeeds, every glyph is 8 wide and 10 high, and the buffer is the
    canvas itself. *)
#[global] Instance sampleRasterizer : Rasterizer string (Canvas string) :=
  {| measure _ text :=
       {| actualBoundingBoxAscent := 10;
          metrics_width := inject_Z (8 * Z.of_nat (String.length text)) |};
     loadImage path := Some path;
     toBuffer c := c;
     dirname := "/app" |}.

(** The sample generator with default options. *)
Definition sampleGenerator : Generator (gmap string Piece) :=
  ChessImageGenerator specConfig noOptions.

(** The starting position as a grid for [loadArray]. *)
Definition startingGrid : list (list string) :=
  [["r"; "n"; "b"; "q"; "k"; "b"; "n"; "r"];
   ["p"; "p"; "p"; "p"; "p"; "p"; "p"; "p"];
   [""; ""; ""; ""; ""; ""; ""; ""];
   [""; ""; ""; ""; ""; ""; ""; ""];
   [""; ""; ""; ""; ""; ""; ""; ""];
   [""; ""; ""; ""; ""; ""; ""; ""];
   ["P"; "P"; "P"; "P"; "P"; "P"; "P"; "P"];
   ["R"; "N"; "B"; "Q"; "K"; "B"; "N"; "R"]].


(** The sample generator after [loadArray(startingGrid)]. *)
Definition startGenerator : Generator (gmap string Piece) :=
  loadArray specConfig startingGrid sampleGenerator.

(** The sample generator after [loadFEN] of the text the sample engine
    knows: a lone king on e1. *)
Definition kingGenerator : Generator (gmap string Piece) :=
  snd (loadFEN "8/8/8/8/8/8/8/4K3 w - - 0 1" sampleGenerator).

(** [s.split(sep)] for a one-character separator; [cur] is the piece read
    so far. *)
Fixpoint splitOn (sep : ascii) (s cur : string) : list string :=
  match s with
  | EmptyString => [cur]
  | String c t =>
      if Ascii.eqb c sep then cur :: splitOn sep t EmptyString
      else splitOn sep t (cur +:+ String c EmptyString)
  end.

(** The moves the replaying engine can read: notation, origin, target. *)
Definition knownMoves : list (string * (string * string)) :=
  [("e4", ("e2", "e4")); ("e5", ("e7", "e5"));
   ("Nf3", ("g1", "f3")); ("Nc6", ("b8", "c6"))].

(** The position the replaying engine resets to. *)
Definition replayStart : gmap string Piece :=
  list_to_map
    [("e2", {| piece_type := "p"; piece_color := "w" |});
     ("e7", {| piece_type := "p"; piece_color := "b" |});
     ("g1", {| piece_type := "n"; piece_color := "w" |});
     ("b8", {| piece_type := "n"; piece_color := "b" |})].

(** One move on the board, if the engine can read it and its origin holds
    a piece. *)
Definition replayMove (san : string) (board : gmap string Piece) : option (gmap string Piece) :=
  match list_to_map (M:=gmap string (string * string)) knownMoves !! san with
  | Some (from, to) =>
      match board !! from with
      | Some piece => Some (<[ to := piece ]> (delete from board))
      | None => None
      end
  | None => None
  end.

(** The moves one after another, until the first that cannot be made. *)
Fixpoint replay (moves : list string) (board : gmap string Piece) : bool * gmap string Piece :=
  match moves with
  | [] => (true, board)
  | san :: rest =>
      match replayMove san board with
      | Some board' => replay rest board'
      | None => (false, board)
      end
  end.

(** A second sample engine, whose PGN reader works on the engine's own
    board: it resets the board to its starting position and replays the
    moves one by one; at the first move it cannot make it returns [false]
    and leaves the board at the last position reached.  Everything else
    is as in the first sample engine. *)
Definition replayEngine : RulesEngine (gmap string Piece) :=
  {| chess_new := replayStart;
     chess_load_pgn pgn _ := replay (splitOn " " pgn EmptyString) replayStart;
     chess_load := chess_load (RulesEngine:=sampleEngine);
     chess_clear := chess_clear (RulesEngine:=sampleEngine);
     chess_put := chess_put (RulesEngine:=sampleEngine);
     chess_get := chess_get (RulesEngine:=sampleEngine) |}.

(** A generator on the replaying engine, after [loadPGN("e4 e5")]. *)
Definition replayGenerator : Generator (gmap string Piece) :=
  snd (loadPGN (RulesEngine0:=replayEngine) "e4 e5"
         (ChessImageGenerator (RulesEngine0:=replayEngine) specConfig noOptions)).

(** A rasteriser that has the sprites of the white pieces only: loading a
    path that mentions a black piece fails. *)
Definition whiteOnlyRasterizer : Rasterizer string (Canvas string) :=
  {| measure := measure (Rasterizer:=sampleRasterizer);
     loadImage path := if includes path "Black" then None else Some path;
     toBuffer c := c;
     dirname := "/app" |}.

(** A grid with a ninth column. *)
Definition wideGrid : list (list string) :=
  [[""; ""; ""; ""; ""; ""; ""; ""; "q"]].

(** ** Notions used by the properties of whole sessions and renders *)

Definition isFillText {Image : Type} (op : DrawOp Image) : bool :=
  match op with
  | FillText _ _ _ _ _ => true
  | _ => false
  end.

(** The rectangle [(x, y, w, h)] a fill or a sprite covers. *)
Definition rectOf {Image : Type} (op : DrawOp Image) : option (Q * Q * Q * Q) :=
  match op with
  | FillRect _ x y w h => Some (x, y, w, h)
  | DrawImage _ x y w h => Some (x, y, w, h)
  | FillText _ _ _ _ _ => None
  end.

(** Two generators with the same render configuration: everything but the
    position, the highlight map and the ready flag. *)
Definition sameConfiguration {Chess : Type} (g g' : Generator Chess) : Prop :=
  size g' = size g /\ light g' = light g /\ dark g' = dark g /\
  highlight g' = highlight g /\ style g' = style g /\ drawLabels g' = drawLabels g /\
  labelLight g' = labelLight g /\ labelDark g' = labelDark g /\ flipped g' = flipped g.

(** The highlight map in force after a sequence of calls that started with
    the map [m]: the argument of the last [setHighlightedSquares]. *)
Fixpoint highlightsAfter (calls : list Call) (m : option (gmap string JsVal))
  : option (gmap string JsVal) :=
  match calls with
  | [] => m
  | CallSetHighlightedSquares squares :: rest => highlightsAfter rest squares
  | _ :: rest => highlightsAfter rest m
  end.

(** The piece of the last [put] on the square named [s], if any. *)
Fixpoint lastPut (s : string) (puts : list (Piece * JsVal)) : option Piece :=
  match puts with
  | [] => None
  | (piece, square) :: rest =>
      match lastPut s rest with
      | Some later => Some later
      | None =>
          match square with
          | JStr s' => if String.eqb s' s then Some piece else None
          | _ => None
          end
      end
  end.

Section BoardContract.
Context {Chess : Type} `{!RulesEngine Chess}.

(** An engine that keeps a board the way a map does: a cleared board is
    empty, a [put] on a square is what [get] then returns there, and it
    changes no other square. *)
Definition lawfulBoard : Prop :=
  (forall (s : string) (c : Chess), chess_get (JStr s) (chess_clear c) = None) /\
  (forall (piece : Piece) (s : string) (c : Chess),
      chess_get (JStr s) (chess_put piece (JStr s) c) = Some piece) /\
  (forall (piece : Piece) (s s' : string) (c : Chess),
      s <> s' -> chess_get (JStr s) (chess_put piece (JStr s') c) = chess_get (JStr s) c).

End BoardContract.

(** A grid of at most eight rows of at most eight cells. *)
Definition withinBoard (array : list (list string)) : Prop :=
  (length array <= 8)%nat /\ Forall (fun array_i => (length array_i <= 8)%nat) array.

(** * Properties *)

(** ** The drawing monad appends layers *)
Section PerformsLemmas.
Context {Chess Image Buffer : Type}.
Context `{!RulesEngine Chess} `{!Rasterizer Image Buffer}.
Variable cfg : Config.
Implicit Types (g : Generator Chess) (F : Font) (m : Draw Image unit).

Lemma performs_ret F : performs (Image:=Image) F (mret tt) (inr []).
Proof.
  intros ctx HF. exists ctx. rewrite app_nil_r. auto.
Qed.

Lemma performs_bind F m1 m2 r1 r2 :
  performs F m1 r1 -> performs F m2 r2 -> performs F (m1;; m2) (andThen r1 r2).
Proof.
  intros H1 H2 ctx HF. specialize (H1 ctx HF).
  unfold mbind, Draw_bind.
  destruct r1 as [e1|l1]; simpl.
  - now rewrite H1.
  - destruct H1 as (ctx1 & -> & HF1 & Hw1 & Hh1 & Hd1).
    specialize (H2 ctx1 HF1).
    destruct r2 as [e2|l2]; [exact H2|].
    destruct H2 as (ctx2 & -> & HF2 & Hw2 & Hh2 & Hd2).
    exists ctx2. repeat split; try congruence.
    rewrite Hd2, Hd1. now rewrite app_assoc.
Qed.

Lemma performs_when F (b : bool) m l :
  performs F m (inr l) -> performs F (when b m) (inr (if b then l else [])).
Proof.
  destruct b; simpl; [auto | intros _; apply performs_ret].
Qed.

Lemma performs_fill F (c : string) (x y w h : Q) :
  performs (Image:=Image) F (setFillStyle c;; fillRect x y w h) (inr [FillRect c x y w h]).
Proof.
  intros ctx HF. eexists. unfold mbind, Draw_bind; simpl. repeat split. exact HF.
Qed.

Lemma performs_text (fnt : Font) (c text : string) (x y : TextMetrics -> Q) :
  performs fnt
    (tm ← measureText text; setFillStyle c;; fillText text (x tm) (y tm))
    (inr [FillText c fnt text (x (measure fnt text)) (y (measure fnt text))]).
Proof.
  intros ctx HF. eexists. unfold mbind, Draw_bind; simpl. rewrite HF. repeat split.
Qed.

Lemma fillDarkSquare_performs F g i j :
  performs (Image:=Image) F (fillDarkSquare g i j) (inr (darkSquareLayer g i j)).
Proof.
  unfold fillDarkSquare, darkSquareLayer, isEven.
  apply performs_when, performs_fill.
Qed.

Lemma drawRowNumbers_performs g i j :
  performs (BoldPtArial (fontSize g)) (drawRowNumbers g i j) (inr (rowNumberLayer g i j)).
Proof.
  unfold drawRowNumbers, rowNumberLayer, isEven.
  apply performs_when.
  apply (performs_text _ _ _
           (fun _ => (cellX g j + textPadding g)%Q)
           (fun tm => (cellY g i + actualBoundingBoxAscent tm + textPadding g)%Q)).
Qed.

Lemma drawColumnLetters_performs g i j :
  performs (BoldPtArial (fontSize g)) (drawColumnLetters cfg g i j)
    (inr (columnLetterLayer cfg g i j)).
Proof.
  unfold drawColumnLetters, columnLetterLayer, isEven.
  apply performs_when.
  apply (performs_text _ _ _
           (fun tm => (cellX g j + cellSide g - metrics_width tm - textPadding g)%Q)
           (fun _ => (cellY g i + cellSide g - textPadding g)%Q)).
Qed.

Lemma highlightSquare_performs F g i j :
  performs (Image:=Image) F (highlightSquare cfg g i j) (inr (highlightLayer cfg g i j)).
Proof.
  unfold highlightSquare, highlightLayer.
  destruct (getSquareHighlight _ g) as [h|]; [|apply performs_ret].
  destruct (String.eqb h "") eqn:E; simpl.
  - apply performs_ret.
  - apply performs_fill.
Qed.

Lemma drawPiece_performs F g i j :
  performs F (drawPiece cfg g i j) (pieceLayer cfg g i j).
Proof.
  unfold drawPiece, pieceLayer, pieceAt.
  destruct (chess_get _ _) as [piece|]; [|apply performs_ret].
  destruct (drawable cfg piece); simpl; [|apply performs_ret].
  intros ctx HF. unfold mbind, Draw_bind, awaitLoadImage.
  destruct (loadImage _) as [img|]; [|reflexivity].
  eexists. simpl. repeat split. exact HF.
Qed.

Lemma drawCell_performs g i j :
  performs (BoldPtArial (fontSize g)) (drawCell cfg g i j) (cellLayers cfg g i j).
Proof.
  unfold drawCell, cellLayers.
  pose proof (performs_bind _ _ _ _ _ (fillDarkSquare_performs (BoldPtArial (fontSize g)) g i j)
    (performs_bind _ _ _ _ _ (drawRowNumbers_performs g i j)
      (performs_bind _ _ _ _ _ (drawColumnLetters_performs g i j)
        (performs_bind _ _ _ _ _ (highlightSquare_performs _ g i j)
          (drawPiece_performs _ g i j))))) as H.
  destruct (pieceLayer cfg g i j) as [e|l]; simpl in *; [exact H|].
  rewrite <- !app_assoc. exact H.
Qed.

Lemma forUpTo_performs F (body : Z -> Draw Image unit) (f : Z -> exn + list (DrawOp Image)) :
  (forall k, performs F (body k) (f k)) ->
  forall n i, performs F (forUpTo n i body) (inSequence (map f (indices n i))).
Proof.
  intros Hbody. induction n as [|n IH]; intros i; simpl.
  - apply performs_ret.
  - apply performs_bind; [apply Hbody | apply IH].
Qed.

Lemma paint_cells_performs g :
  performs (BoldPtArial (fontSize g))
    (forUpTo 8 0 (fun i => forUpTo 8 0 (fun j => drawCell cfg g i j)))
    (boardLayers cfg g).
Proof.
  unfold boardLayers.
  apply (forUpTo_performs _ _
           (fun i => inSequence (map (fun j => cellLayers cfg g i j) (indices 8 0)))).
  intros i. apply (forUpTo_performs _ _ (fun j => cellLayers cfg g i j)).
  intros j. apply drawCell_performs.
Qed.

(** [generateCanvas] in closed form: the readiness check, then the base
    fill followed by the layers of the 64 cells, up to the first image
    load that fails. *)
Lemma generateCanvas_layers g :
  generateCanvas cfg g =
    if negb (ready g) then inl NotReady
    else match boardLayers cfg g with
         | inl e => inl e
         | inr l => inr {| canvas_width := size g; canvas_height := size g;
                           drawn := boardFill g :: l |}
         end.
Proof.
  unfold generateCanvas. destruct (negb (ready g)); [reflexivity|].
  set (ctx1 := {| fillStyle := light g; font := BoldPtArial (fontSize g);
                  canvas := {| canvas_width := size g; canvas_height := size g;
                               drawn := [boardFill g] |} |} : Ctx Image).
  change (paint cfg g (getContext (createCanvas (size g) (size g))))
    with (forUpTo 8 0 (fun i => forUpTo 8 0 (fun j => drawCell cfg g i j)) ctx1).
  pose proof (paint_cells_performs g ctx1 eq_refl) as H.
  destruct (boardLayers cfg g) as [e|l].
  - now rewrite H.
  - destruct H as (ctx' & -> & _ & Hw & Hh & Hd).
    destruct ctx' as [fs fn [w h d]]; simpl in *. now subst.
Qed.

End PerformsLemmas.

(** ** Successful and failed renders *)
Section RenderOutcome.
Context {Chess Image Buffer : Type}.
Context `{!RulesEngine Chess} `{!Rasterizer Image Buffer}.
Variable cfg : Config.
Implicit Types (g : Generator Chess).

Lemma inSequence_inr {A X : Type} (f : A -> exn + list X) (l : list A) (ops : list X) :
  inSequence (map f l) = inr ops ->
  Forall (fun a => returned (f a) = true) l /\
  ops = flat_map (fun a => match f a with inr o => o | inl _ => [] end) l.
Proof.
  revert ops. induction l as [|a l IH]; simpl; intros ops Hs.
  - inversion Hs. split; [constructor | reflexivity].
  - destruct (f a) as [e|o] eqn:Ea; simpl in Hs; [discriminate|].
    destruct (inSequence (map f l)) as [e|rest]; [discriminate|].
    inversion Hs; subst. destruct (IH rest eq_refl) as [Hall ->].
    split; [constructor; [rewrite ?Ea; reflexivity | exact Hall] | rewrite ?Ea; reflexivity].
Qed.

Lemma inSequence_inl {A X : Type} (f : A -> exn + list X) (l : list A) (e : exn) :
  inSequence (map f l) = inl e -> exists a, In a l /\ f a = inl e.
Proof.
  induction l as [|a l IH]; simpl; intros Hs; [discriminate|].
  destruct (f a) as [e'|o] eqn:Ea; simpl in Hs.
  - inversion Hs; subst. exists a. auto.
  - destruct (inSequence (map f l)) as [e'|rest]; [|discriminate].
    inversion Hs; subst. destruct (IH eq_refl) as (a' & Hin & Ha'). exists a'. auto.
Qed.

Lemma flat_map_row {X : Type} (F : Z * Z -> list X) (i : Z) (js : list Z) :
  flat_map F (map (fun j => (i, j)) js) = flat_map (fun j => F (i, j)) js.
Proof.
  induction js as [|j js IH]; simpl; [reflexivity | now rewrite IH].
Qed.

Lemma flat_map_pairs {X : Type} (F : Z * Z -> list X) (rows js : list Z) :
  flat_map F (flat_map (fun i => map (fun j => (i, j)) js) rows) =
  flat_map (fun i => flat_map (fun j => F (i, j)) js) rows.
Proof.
  induction rows as [|i rows IH]; simpl; [reflexivity|].
  now rewrite flat_map_app, IH, flat_map_row.
Qed.

Lemma flat_map_ext_Forall {A X : Type} (f f' : A -> list X) (l : list A) :
  Forall (fun a => f a = f' a) l -> flat_map f l = flat_map f' l.
Proof.
  induction 1; simpl; [reflexivity | congruence].
Qed.

Lemma cellLayers_inr g i j (ops : list (DrawOp Image)) :
  cellLayers cfg g i j = inr ops -> ops = cellOps cfg g i j.
Proof.
  unfold cellLayers, cellOps, pieceOps.
  destruct (pieceLayer cfg g i j) as [e|p]; simpl; intros Hc; [discriminate|].
  inversion Hc. now rewrite <- !app_assoc.
Qed.

Lemma cellLayers_inl g i j (e : exn) :
  cellLayers cfg g i j = inl e -> exists path, e = ImageLoadFailure path.
Proof.
  unfold cellLayers, pieceLayer.
  destruct (pieceAt cfg g i j) as [piece|]; simpl; [|discriminate].
  destruct (loadImage _); simpl; [discriminate|].
  intros Hc. inversion Hc. eauto.
Qed.

Lemma boardLayers_inr g (ops : list (DrawOp Image)) :
  boardLayers cfg g = inr ops ->
  ops = flat_map (fun ij => cellOps cfg g (fst ij) (snd ij)) cells.
Proof.
  unfold boardLayers, cells. intros Hb.
  apply inSequence_inr in Hb as [Hrows ->].
  rewrite flat_map_pairs. apply flat_map_ext_Forall.
  eapply Forall_impl; [exact Hrows|]. cbv beta. intros i Hi.
  destruct (inSequence _) as [e|o] eqn:Ei; [discriminate|].
  apply inSequence_inr in Ei as [Hcols ->].
  apply flat_map_ext_Forall. eapply Forall_impl; [exact Hcols|].
  cbv beta. intros j Hj.
  destruct (cellLayers cfg g i j) as [e|o] eqn:Ec; [discriminate|].
  now apply cellLayers_inr.
Qed.

Lemma boardLayers_inl g (e : exn) :
  boardLayers cfg g = inl e -> exists path, e = ImageLoadFailure path.
Proof.
  unfold boardLayers. intros Hb.
  apply inSequence_inl in Hb as (i & _ & Hi).
  apply inSequence_inl in Hi as (j & _ & Hj).
  now apply cellLayers_inl in Hj.
Qed.

(** A render that succeeds draws the base fill and then, cell by cell in
    loop order, the five layers of each cell. *)
Lemma generateCanvas_inr g (c : Canvas Image) :
  generateCanvas cfg g = inr c ->
  ready g = true /\ canvas_width c = size g /\ canvas_height c = size g /\
  drawn c = boardFill g :: flat_map (fun ij => cellOps cfg g (fst ij) (snd ij)) cells.
Proof.
  rewrite generateCanvas_layers.
  destruct (ready g); simpl; [|discriminate].
  destruct (boardLayers cfg g) as [e|l] eqn:Eb; [discriminate|].
  intros Hc. inversion Hc; subst; simpl.
  apply boardLayers_inr in Eb. subst. auto.
Qed.

(** The only exceptions of a render are the readiness error, raised exactly
    on an object that is not ready, and a failed image load. *)
Lemma generateCanvas_isNotReady g :
  isNotReady (generateCanvas cfg g) = negb (ready g).
Proof.
  rewrite generateCanvas_layers.
  destruct (ready g); simpl; [|reflexivity].
  destruct (boardLayers cfg g) as [e|l] eqn:Eb; [|reflexivity].
  apply boardLayers_inl in Eb as [path ->]. reflexivity.
Qed.

Lemma generateBuffer_isNotReady g :
  isNotReady (generateBuffer cfg g) = negb (ready g).
Proof.
  rewrite <- generateCanvas_isNotReady. unfold generateBuffer.
  now destruct (generateCanvas cfg g).
Qed.

Lemma generatePNG_isNotReady g (pngPath : string) :
  isNotReady (generatePNG cfg pngPath g) = negb (ready g).
Proof.
  unfold generatePNG. destruct (ready g) eqn:Er; simpl; [|reflexivity].
  pose proof (generateBuffer_isNotReady g) as Hb. rewrite Er in Hb. simpl in Hb.
  now destruct (generateBuffer cfg g).
Qed.

Lemma generateBuffer_not_ready g :
  ready g = false -> generateBuffer cfg g = inl NotReady.
Proof.
  intros Hr. unfold generateBuffer, generateCanvas. now rewrite Hr.
Qed.

Lemma generatePNG_not_ready g (pngPath : string) :
  ready g = false -> generatePNG cfg pngPath g = inl NotReady.
Proof.
  intros Hr. unfold generatePNG. now rewrite Hr.
Qed.

End RenderOutcome.

(** ** Orientation *)
Section Orientation.
Context {Chess Image Buffer : Type}.
Context `{!RulesEngine Chess} `{!Rasterizer Image Buffer}.
Variable cfg : Config.
Implicit Types (g : Generator Chess).

Lemma row_flipped (i : Z) : row true i = 8 - i.
Proof. unfold row. lia. Qed.

Lemma row_unflipped (i : Z) : row false i = i + 1.
Proof. reflexivity. Qed.

(** The constructor stores the negation of "the option is literally
    [true]" in [this.flipped]. *)
Lemma constructor_flipped (options : Options) :
  flipped (ChessImageGenerator (Chess:=Chess) cfg options) =
  negb (strictEqBool (opt_flipped options) true).
Proof. reflexivity. Qed.

(** The square the render of a freshly constructed object shows in cell
    [(i, j)], by the [flipped] option. *)
Lemma squareAt_constructed (options : Options) (i j : Z) :
  squareAt cfg (ChessImageGenerator (Chess:=Chess) cfg options) i j =
    if strictEqBool (opt_flipped options) true
    then jsPlus (strAt (cols cfg) j) (i + 1)
    else jsPlus (strAt (cols cfg) (7 - j)) (8 - i).
Proof.
  unfold squareAt. rewrite constructor_flipped.
  destruct (strictEqBool (opt_flipped options) true); cbn [negb]; unfold col, row.
  - reflexivity.
  - f_equal. lia.
Qed.

Lemma strAt_single (s : string) (k : Z) (x : string) :
  strAt s k = Some x -> exists c, x = String c EmptyString.
Proof.
  unfold strAt. destruct (k <? 0)%Z; [discriminate|].
  destruct (String.get _ s) as [c|]; [|discriminate].
  intros Hx. inversion Hx. eauto.
Qed.

Lemma numToString_inj_rank (r r' : Z) :
  1 <= r <= 8 -> 1 <= r' <= 8 -> numToString r = numToString r' -> r = r'.
Proof.
  intros Hr Hr'.
  assert (r = 1 \/ r = 2 \/ r = 3 \/ r = 4 \/ r = 5 \/ r = 6 \/ r = 7 \/ r = 8) as Cr by lia.
  assert (r' = 1 \/ r' = 2 \/ r' = 3 \/ r' = 4 \/ r' = 5 \/ r' = 6 \/ r' = 7 \/ r' = 8) as Cr' by lia.
  clear Hr Hr'.
  repeat (destruct Cr as [-> | Cr]); try subst r;
    repeat (destruct Cr' as [-> | Cr']); try subst r';
    vm_compute; intros Hs; first [reflexivity | discriminate Hs].
Qed.

(** Two square names built from files and ranks of the board are equal only
    if the files and the ranks are. *)
Lemma square_name_inj (a b r r' : Z) :
  filesDistinct cfg -> 0 <= a < 8 -> 0 <= b < 8 -> 1 <= r <= 8 -> 1 <= r' <= 8 ->
  jsPlus (strAt (cols cfg) a) r = jsPlus (strAt (cols cfg) b) r' ->
  a = b /\ r = r'.
Proof.
  intros Hd Ha Hb Hr Hr' Heq.
  destruct (Hd a b Ha Hb) as [Hsome Hinj].
  destruct (Hd b a Hb Ha) as [Hsome' _].
  destruct (strAt (cols cfg) a) as [x|] eqn:Ex; [|congruence].
  destruct (strAt (cols cfg) b) as [y|] eqn:Ey; [|congruence].
  destruct (strAt_single _ _ _ Ex) as [c ->].
  destruct (strAt_single _ _ _ Ey) as [c' ->].
  simpl in Heq. inversion Heq; subst.
  split; [now apply Hinj | now apply numToString_inj_rank].
Qed.


End Orientation.

(** C1 (the code departs from the claim).  Constructed without options, or
    with [flipped: false], the object has [this.flipped = true]: the cell
    [(0, 0)], drawn at the bottom-left of the canvas
    ([x = 0], [y = 7 * cellSize]), shows h8 and not a1, and every cell
    [(i, j)] shows file [cols[7 - j]], rank [8 - i].  Only [flipped: true]
    gives file [cols[j]], rank [i + 1]. *)
Theorem default_orientation_is_rotated :
  flipped sampleGenerator = true /\
  squareAt specConfig sampleGenerator 0 0 = JStr "h8" /\
  jsPlus (strAt (cols specConfig) 0) (0 + 1) = JStr "a1" /\
  (cellX sampleGenerator 0 == 0)%Q /\
  (cellY sampleGenerator 0 == 7 * cellSide sampleGenerator)%Q /\
  (forall (options : Options) (i j : Z),
      squareAt specConfig
        (ChessImageGenerator (Chess:=gmap string Piece) specConfig options) i j =
      match opt_flipped options with
      | JBool true => jsPlus (strAt (cols specConfig) j) (i + 1)
      | _ => jsPlus (strAt (cols specConfig) (7 - j)) (8 - i)
      end).
Proof.
  split; [reflexivity|]. split; [reflexivity|]. split; [reflexivity|].
  split; [reflexivity|]. split; [reflexivity|].
  intros options i j. rewrite squareAt_constructed.
  destruct (opt_flipped options) as [| |[|]| | | |]; reflexivity.
Qed.

(** C9.  The two variants of [generateBuffer] resolve the same column
    letter and the same square name in every cell: the older variant's
    [cols[col(j)]] with a numeric [col] equals the newer variant's
    [col(j)], for both values of the flip flag and every [j] (in
    particular for [j] from 0 to 7). *)
Theorem variants_agree_on_squares (cfg : Config) :
  (forall (flipped : bool) (j : Z),
      strAt (cols cfg) (Base.col flipped j) = col cfg flipped j) /\
  (forall (flipped : bool) (i : Z), Base.row flipped i = row flipped i) /\
  (forall {Chess : Type} (g : Generator Chess) (i j : Z),
      Base.columnLetter cfg g j = col cfg (flipped g) j /\
      Base.squareAt cfg g i j = squareAt cfg g i j).
Proof.
  split; [|split].
  - intros [|] j; reflexivity.
  - intros [|] i; reflexivity.
  - intros Chess g i j. unfold Base.columnLetter, Base.squareAt, squareAt.
    destruct (flipped g); split; reflexivity.
Qed.

(** ** Square colouring and labels *)
Section Rendering.
Context {Chess Image Buffer : Type}.
Context `{!RulesEngine Chess} `{!Rasterizer Image Buffer}.
Variable cfg : Config.
Implicit Types (g : Generator Chess).

Lemma In_indices (n : nat) (i k : Z) :
  In k (indices n i) <-> i <= k < i + Z.of_nat n.
Proof.
  revert i. induction n as [|n IH]; intros i; simpl indices.
  - simpl. lia.
  - simpl In. rewrite IH. lia.
Qed.

(** The cell loop visits exactly the cells of the 8 by 8 grid. *)
Lemma In_cells (i j : Z) : In (i, j) cells <-> 0 <= i < 8 /\ 0 <= j < 8.
Proof.
  unfold cells. rewrite in_flat_map. split.
  - intros (i' & Hi' & Hin). apply in_map_iff in Hin as (j' & Heq & Hj').
    inversion Heq; subst. apply In_indices in Hi'. apply In_indices in Hj'. lia.
  - intros [Hi Hj]. exists i. split; [apply In_indices; lia|].
    apply in_map_iff. exists j. split; [reflexivity | apply In_indices; lia].
Qed.

Lemma pieceOps_no_FillRect g i j :
  Forall (fun op => isFillRect op = false) (pieceOps cfg g i j).
Proof.
  unfold pieceOps, pieceLayer. destruct (pieceAt cfg g i j); [|constructor].
  destruct (loadImage _); repeat constructor.
Qed.

(** C2.  A render that succeeds first fills the whole [size] by [size]
    canvas with the light colour and then draws the cells of the grid in
    loop order.  The dark fill is the first layer of a cell and is present
    exactly when [i + j] is even; a cell with [i + j] odd receives text
    and sprites only (no rectangle at all unless the square is
    highlighted), so light squares keep the base fill.  The dark layer
    reads the grid indices, the dark colour and the size of the object and
    nothing else: it is the same whatever the flip flag. *)
Theorem square_colouring g (c : Canvas Image) :
  generateCanvas cfg g = inr c ->
  canvas_width c = size g /\ canvas_height c = size g /\
  drawn c = FillRect (light g) 0 0 (size g) (size g)
              :: flat_map (fun ij => cellOps cfg g (fst ij) (snd ij)) cells /\
  (forall i j : Z, In (i, j) cells <-> 0 <= i < 8 /\ 0 <= j < 8) /\
  (forall i j : Z,
      cellOps cfg g i j =
        darkSquareLayer g i j ++ rowNumberLayer g i j ++ columnLetterLayer cfg g i j ++
        highlightLayer cfg g i j ++ pieceOps cfg g i j) /\
  (forall i j : Z,
      darkSquareLayer (Image:=Image) g i j =
        if ((i + j) mod 2 =? 0)%Z
        then [FillRect (dark g) (cellX g j) (cellY g i) (cellSide g) (cellSide g)]
        else []) /\
  (forall i j : Z,
      ((i + j) mod 2 =? 0)%Z = false -> highlightLayer (Image:=Image) cfg g i j = [] ->
      Forall (fun op => isFillRect op = false) (cellOps cfg g i j)) /\
  (forall (g' : Generator Chess) (i j : Z),
      dark g' = dark g -> size g' = size g ->
      darkSquareLayer (Image:=Image) g' i j = darkSquareLayer g i j).
Proof.
  intros Hc. apply generateCanvas_inr in Hc as (_ & Hw & Hh & Hd).
  split; [exact Hw|]. split; [exact Hh|]. split; [exact Hd|].
  split; [apply In_cells|]. split; [reflexivity|]. split; [reflexivity|]. split.
  - intros i j Hodd Hnone. unfold cellOps, darkSquareLayer, isEven.
    rewrite Hodd, Hnone. simpl.
    apply Forall_app. split.
    + unfold rowNumberLayer. destruct (drawLabels g && (j =? 0)%Z); repeat constructor.
    + apply Forall_app. split; [|apply pieceOps_no_FillRect].
      unfold columnLetterLayer. destruct (drawLabels g && (i =? 0)%Z); repeat constructor.
  - intros g' i j Hdark Hsize. unfold darkSquareLayer, cellX, cellY, cellSide.
    now rewrite Hdark, Hsize.
Qed.

(** C8.  With labels enabled, a render that succeeds draws in each cell a
    rank label exactly when [j = 0] and a file label exactly when [i = 0].
    The rank label reads [row(i)] and the file label [col(j)], the rank
    and file of the square shown in the cell; the rank label is
    [labelDark] for even [i] and [labelLight] for odd [i], the file label
    likewise on [j].  The constructor defaults [labelLight] to the dark
    square colour and [labelDark] to the light one. *)
Theorem label_drawing g (c : Canvas Image) :
  generateCanvas cfg g = inr c -> drawLabels g = true ->
  drawn c = boardFill g :: flat_map (fun ij => cellOps cfg g (fst ij) (snd ij)) cells /\
  (forall i j : Z,
      cellOps cfg g i j =
        darkSquareLayer g i j ++ rowNumberLayer g i j ++ columnLetterLayer cfg g i j ++
        highlightLayer cfg g i j ++ pieceOps cfg g i j /\
      squareAt cfg g i j = jsPlus (col cfg (flipped g) j) (row (flipped g) i) /\
      rowNumberLayer g i j =
        (if (j =? 0)%Z
         then
           let text := numToString (row (flipped g) i) in
           [FillText (if (i mod 2 =? 0)%Z then labelDark g else labelLight g)
              (BoldPtArial (fontSize g)) text
              (cellX g j + textPadding g)%Q
              (cellY g i + actualBoundingBoxAscent (measure (BoldPtArial (fontSize g)) text)
               + textPadding g)%Q]
         else []) /\
      columnLetterLayer cfg g i j =
        (if (i =? 0)%Z
         then
           let text := textOf (col cfg (flipped g) j) in
           [FillText (if (j mod 2 =? 0)%Z then labelDark g else labelLight g)
              (BoldPtArial (fontSize g)) text
              (cellX g j + cellSide g
               - metrics_width (measure (BoldPtArial (fontSize g)) text) - textPadding g)%Q
              (cellY g i + cellSide g - textPadding g)%Q]
         else [])) /\
  (forall options : Options,
      (opt_labelLight options = None ->
       labelLight (ChessImageGenerator (Chess:=Chess) cfg options) =
       dark (ChessImageGenerator (Chess:=Chess) cfg options)) /\
      (opt_labelDark options = None ->
       labelDark (ChessImageGenerator (Chess:=Chess) cfg options) =
       light (ChessImageGenerator (Chess:=Chess) cfg options))).
Proof.
  intros Hc Hlabels. apply generateCanvas_inr in Hc as (_ & _ & _ & Hd).
  split; [exact Hd|]. split.
  - intros i j. split; [reflexivity|]. split; [reflexivity|].
    unfold rowNumberLayer, columnLetterLayer, isEven. rewrite Hlabels.
    split; reflexivity.
  - intros options. split; intros Hnone; simpl; now rewrite Hnone.
Qed.

End Rendering.

(** ** Position loading *)
Section Loading.
Context {Chess Image Buffer : Type}.
Context `{!RulesEngine Chess} `{!Rasterizer Image Buffer}.
Variable cfg : Config.
Implicit Types (g : Generator Chess) (c : Chess).

Lemma applyPuts_app (puts puts' : list (Piece * JsVal)) c :
  applyPuts (puts ++ puts') c = applyPuts puts' (applyPuts puts c).
Proof. unfold applyPuts. apply fold_left_app. Qed.

Lemma row_loop_puts (i : Z) (array_i : list string) (j : Z) c :
  forEachIndex array_i j
    (fun j cell c =>
       if recognized cfg cell
       then chess_put (pieceOfCell cfg cell) (jsPlus (strAt (cols cfg) j) (8 - i)) c
       else c) c
  = applyPuts (rowPlacements cfg i j array_i) c.
Proof.
  revert j c. induction array_i as [|cell rest IH]; intros j c; simpl; [reflexivity|].
  rewrite IH. unfold placementAt. now destruct (recognized cfg cell).
Qed.

Lemma grid_loop_puts (array : list (list string)) (i : Z) c :
  forEachIndex array i
    (fun i array_i c =>
       forEachIndex array_i 0
         (fun j cell c =>
            if recognized cfg cell
            then chess_put (pieceOfCell cfg cell) (jsPlus (strAt (cols cfg) j) (8 - i)) c
            else c) c) c
  = applyPuts (placementsFrom cfg i array) c.
Proof.
  revert i c. induction array as [|array_i rest IH]; intros i c; simpl; [reflexivity|].
  now rewrite IH, row_loop_puts, applyPuts_app.
Qed.

Lemma loadArray_chess (array : list (list string)) g :
  chess (loadArray cfg array g) = applyPuts (placements cfg array) (chess_clear (chess g)).
Proof. unfold loadArray, placements. simpl. apply grid_loop_puts. Qed.

Lemma In_rowPlacements (i j0 : Z) (array_i : list string) (p : Piece * JsVal) :
  In p (rowPlacements cfg i j0 array_i) <->
  exists (k : nat) (cell : string),
    array_i !! k = Some cell /\ placementAt cfg i (j0 + Z.of_nat k) cell = Some p.
Proof.
  revert j0. induction array_i as [|cell rest IH]; intros j0; simpl.
  - split; [tauto | intros (k & cell & Hk & _); now destruct k].
  - assert (In p (rowPlacements cfg i (j0 + 1) rest) <->
            exists (k : nat) (cell' : string),
              rest !! k = Some cell' /\
              placementAt cfg i (j0 + Z.of_nat (S k)) cell' = Some p) as IH'.
    { rewrite IH. split; intros (k & cell' & Hk & Hp); exists k, cell'; split; auto;
        now replace (j0 + Z.of_nat (S k)) with (j0 + 1 + Z.of_nat k) in * by lia. }
    assert (forall P : Prop,
               (placementAt cfg i j0 cell = Some p \/ P) <->
               match placementAt cfg i j0 cell with
               | Some q => q = p \/ P
               | None => P
               end) as Hhead.
    { intros P. destruct (placementAt cfg i j0 cell) as [q|]; split; intros Hq;
        try tauto; destruct Hq as [Hq|Hq]; auto; try discriminate;
        [inversion Hq; auto | left; now subst]. }
    transitivity (placementAt cfg i j0 cell = Some p \/
                  In p (rowPlacements cfg i (j0 + 1) rest)).
    { rewrite Hhead. now destruct (placementAt cfg i j0 cell). }
    rewrite IH'. split.
    + intros [Hp | (k & cell' & Hk & Hp)].
      * exists O, cell. split; [reflexivity|]. now replace (j0 + Z.of_nat 0) with j0 by lia.
      * exists (S k), cell'. auto.
    + intros (k & cell' & Hk & Hp). destruct k as [|k].
      * left. simpl in Hk. inversion Hk; subst.
        now replace (j0 + Z.of_nat 0) with j0 in Hp by lia.
      * right. exists k, cell'. auto.
Qed.

Lemma In_placementsFrom (i0 : Z) (array : list (list string)) (p : Piece * JsVal) :
  In p (placementsFrom cfg i0 array) <->
  exists (i j : nat) (array_i : list string) (cell : string),
    array !! i = Some array_i /\ array_i !! j = Some cell /\
    placementAt cfg (i0 + Z.of_nat i) (Z.of_nat j) cell = Some p.
Proof.
  revert i0. induction array as [|array_i rest IH]; intros i0; simpl.
  - split; [tauto | intros (i & j & r & cell & Hi & _); now destruct i].
  - rewrite in_app_iff, In_rowPlacements, IH. split.
    + intros [(j & cell & Hj & Hp) | (i & j & r & cell & Hi & Hj & Hp)].
      * exists O, j, array_i, cell. repeat split; auto.
        now replace (i0 + Z.of_nat 0) with i0 by lia.
      * exists (S i), j, r, cell. repeat split; auto.
        now replace (i0 + Z.of_nat (S i)) with (i0 + 1 + Z.of_nat i) by lia.
    + intros (i & j & r & cell & Hi & Hj & Hp). destruct i as [|i].
      * left. simpl in Hi. inversion Hi; subst. exists j, cell. split; auto.
        now replace (i0 + Z.of_nat 0) with i0 in Hp by lia.
      * right. exists i, j, r, cell. repeat split; auto.
        now replace (i0 + Z.of_nat (S i)) with (i0 + 1 + Z.of_nat i) in Hp by lia.
Qed.

End Loading.

(** ** Characters of recognised cells *)

Lemma prefix_chars (needle hay : string) (c : ascii) :
  String.prefix needle hay = true ->
  In c (list_ascii_of_string needle) -> In c (list_ascii_of_string hay).
Proof.
  revert hay. induction needle as [|a needle IH]; intros hay Hp Hin; [destruct Hin|].
  destruct hay as [|b hay]; simpl in Hp; [discriminate|].
  destruct (Ascii.ascii_dec a b) as [->|]; [|discriminate].
  simpl in *. destruct Hin as [->|Hin]; [now left | right; now apply IH].
Qed.

(** A string found inside another consists of characters of the other. *)
Lemma includes_chars (hay needle : string) (c : ascii) :
  includes hay needle = true ->
  In c (list_ascii_of_string needle) -> In c (list_ascii_of_string hay).
Proof.
  induction hay as [|b hay IH]; intros Hinc Hin.
  - destruct needle; [destruct Hin | discriminate].
  - change (includes (String b hay) needle)
      with (if String.prefix needle (String b hay) then true else includes hay needle)
      in Hinc.
    destruct (String.prefix needle (String b hay)) eqn:Ep.
    + exact (prefix_chars needle (String b hay) c Ep Hin).
    + right. now apply IH.
Qed.

Lemma toLowerCase_chars (s : string) (c : ascii) :
  In c (list_ascii_of_string s) -> In (lowerAscii c) (list_ascii_of_string (toLowerCase s)).
Proof.
  induction s as [|a s IH]; simpl; [tauto|].
  intros [->|Hin]; [now left | right; now apply IH].
Qed.

Lemma lowerAscii_space (c : ascii) : isSpace c = true -> lowerAscii c = c.
Proof.
  destruct c as [[] [] [] [] [] [] [] []]; vm_compute; intros Hs;
    first [reflexivity | discriminate Hs].
Qed.

Section LoadArray.
Context {Chess : Type} `{!RulesEngine Chess}.
Variable cfg : Config.
Implicit Types (g : Generator Chess).

Lemma recognized_space (cell : string) (c : ascii) :
  (forall b, In b (list_ascii_of_string (black cfg)) -> isSpace b = false) ->
  In c (list_ascii_of_string cell) -> isSpace c = true -> recognized cfg cell = false.
Proof.
  intros Hblack Hin Hsp. unfold recognized.
  destruct (includes (black cfg) (toLowerCase cell)) eqn:Einc; [|apply andb_false_r].
  apply toLowerCase_chars in Hin. rewrite (lowerAscii_space _ Hsp) in Hin.
  apply (includes_chars _ _ _ Einc), Hblack in Hin. congruence.
Qed.

(** C3.  [loadArray] clears the board and then issues, in row-major order,
    one [put] for each cell that holds a recognised piece code and none
    for any other cell.  The [put] for the cell at row [i], column [j]
    places the piece whose kind is the lower-cased code and whose side is
    white exactly when the code as written is in the white alphabet, on
    the square with file [cols[j]] and rank [8 - i].  The empty string is
    never recognised, and neither is a cell containing white space as
    long as the piece alphabet has no white space in it. *)
Theorem loadArray_places (array : list (list string)) g :
  chess (loadArray cfg array g) = applyPuts (placements cfg array) (chess_clear (chess g)) /\
  (forall p : Piece * JsVal,
      In p (placements cfg array) <->
      exists (i j : nat) (array_i : list string) (cell : string),
        array !! i = Some array_i /\ array_i !! j = Some cell /\
        placementAt cfg (Z.of_nat i) (Z.of_nat j) cell = Some p) /\
  (forall (i j : Z) (cell : string),
      placementAt cfg i j cell =
        if String.eqb cell "" || negb (includes (black cfg) (toLowerCase cell))
        then None
        else Some ({| piece_type := toLowerCase cell;
                      piece_color := if includes (white cfg) cell then "w" else "b" |},
                   jsPlus (strAt (cols cfg) j) (8 - i))) /\
  (forall i j : Z, placementAt cfg i j "" = None) /\
  ((forall b, In b (list_ascii_of_string (black cfg)) -> isSpace b = false) ->
   forall (i j : Z) (cell : string) (c : ascii),
     In c (list_ascii_of_string cell) -> isSpace c = true ->
     placementAt cfg i j cell = None).
Proof.
  split; [apply loadArray_chess|]. split; [|split; [|split]].
  - intros p. unfold placements. rewrite In_placementsFrom.
    split; intros (i & j & r & cell & Hi & Hj & Hp); exists i, j, r, cell;
      repeat split; auto.
  - intros i j cell. unfold placementAt, recognized, pieceOfCell.
    destruct (String.eqb cell ""); simpl; [reflexivity|].
    now destruct (includes (black cfg) (toLowerCase cell)).
  - intros i j. reflexivity.
  - intros Hblack i j cell c Hin Hsp. unfold placementAt.
    now rewrite (recognized_space cell c Hblack Hin Hsp).
Qed.

End LoadArray.

(** ** Highlight resolution *)
Section Highlights.
Context {Chess : Type}.
Implicit Types (g : Generator Chess).

Lemma truthy_square_name (square : string) : square <> "" -> truthy (JStr square) = true.
Proof.
  intros Hne. simpl. destruct (String.eqb_spec square ""); [contradiction | reflexivity].
Qed.

Lemma isSquareName_nonempty (square : string) : isSquareName square -> square <> "".
Proof. intros (file & rank & _ & ->). discriminate. Qed.

(** The squares the render asks about are square names. *)
Lemma squareAt_isSquareName (cfg : Config) g (i j : Z) :
  0 <= i < 8 -> col cfg (flipped g) j <> None ->
  exists s : string, squareAt cfg g i j = JStr s /\ isSquareName s.
Proof.
  intros Hi Hcol. unfold squareAt.
  destruct (col cfg (flipped g) j) as [letter|] eqn:El; [|congruence].
  assert (exists c, letter = String c EmptyString) as [c ->].
  { unfold col in El. destruct (flipped g); exact (strAt_single _ _ _ El). }
  exists (String c (numToString (row (flipped g) i))). split; [reflexivity|].
  exists c, (row (flipped g) i). split; [|reflexivity].
  unfold row. destruct (flipped g); lia.
Qed.

(** C4.  For the name of a square of the board (a file character followed
    by a rank from 1 to 8, which is what the render passes for every
    cell), [getSquareHighlight] returns [null] when the highlight map is
    unset, when the square is not a key of it or when its value is falsy;
    the value itself when it is a (non-empty) string; and the generator's
    default highlight colour for every other truthy value.  So with the
    empty map no square is highlighted, with [{e4: true}] the square e4
    gets the default colour and every other square none, and with
    [{e4: "#ff0000"}] the square e4 gets exactly that colour. *)
Theorem getSquareHighlight_resolves g (square : string) :
  isSquareName square ->
  (highlightedSquares g = None -> getSquareHighlight (JStr square) g = None) /\
  (forall squares : gmap string JsVal,
      highlightedSquares g = Some squares ->
      (squares !! square = None -> getSquareHighlight (JStr square) g = None) /\
      (forall v : JsVal,
          squares !! square = Some v ->
          getSquareHighlight (JStr square) g =
            if negb (truthy v) then None
            else match v with
                 | JStr s => Some s
                 | _ => Some (highlight g)
                 end)) /\
  getSquareHighlight (JStr square) (setHighlightedSquares (Some ∅) g) = None /\
  (isSquareName "e4" /\
   getSquareHighlight (JStr "e4")
     (setHighlightedSquares (Some {[ "e4" := JBool true ]}) g) = Some (highlight g)) /\
  (square <> "e4" ->
   getSquareHighlight (JStr square)
     (setHighlightedSquares (Some {[ "e4" := JBool true ]}) g) = None) /\
  getSquareHighlight (JStr "e4")
    (setHighlightedSquares (Some {[ "e4" := JStr "#ff0000" ]}) g) = Some "#ff0000" /\
  (forall (cfg : Config) (g' : Generator Chess) (i j : Z),
      0 <= i < 8 -> col cfg (flipped g') j <> None ->
      exists s : string, squareAt cfg g' i j = JStr s /\ isSquareName s).
Proof.
  intros Hname. pose proof (isSquareName_nonempty square Hname) as Hne.
  pose proof (truthy_square_name square Hne) as Ht.
  split; [|split; [|split; [|split; [|split; [|split]]]]].
  - intros Hunset. unfold getSquareHighlight. now rewrite Hunset.
  - intros squares Hset. unfold getSquareHighlight. rewrite Hset, Ht. simpl.
    split; [intros -> | intros v ->]; reflexivity.
  - unfold getSquareHighlight. simpl highlightedSquares. rewrite Ht. simpl.
    now rewrite lookup_empty.
  - split; [|reflexivity]. exists "e"%char, 4. split; [lia | reflexivity].
  - intros Hother. unfold getSquareHighlight. simpl highlightedSquares. rewrite Ht. simpl.
    rewrite lookup_singleton_ne; [reflexivity | congruence].
  - reflexivity.
  - intros cfg g' i j Hi Hcol. now apply squareAt_isSquareName.
Qed.

End Highlights.

(** ** Rejected and accepted notation *)
Section Notation.
Context {Chess : Type} `{!RulesEngine Chess}.
Implicit Types (g : Generator Chess).

Lemma set_chess_same g : set_chess (chess g) g = g.
Proof. now destruct g. Qed.

(** C6 (amended).  When the rules engine rejects the text, [loadPGN] and
    [loadFEN] throw the invalid-notation error and leave every field of
    the generator as it was, the ready flag included: a generator that
    was ready stays ready.  The generator makes no change of its own to
    the board and does not restore it: the position is what the engine's
    single parse call left, so the whole object is unchanged when the
    engine rejects without touching its position.  When the engine
    accepts the text the call returns normally with the ready flag set. *)
Theorem notation_loaders (text : string) g :
  (fst (chess_load text (chess g)) = false ->
   fst (loadFEN text g) = inl (InvalidNotation "FEN") /\
   snd (loadFEN text g) = set_chess (snd (chess_load text (chess g))) g /\
   ready (snd (loadFEN text g)) = ready g /\
   (rejectsAtomically -> snd (loadFEN text g) = g)) /\
  (fst (chess_load_pgn text (chess g)) = false ->
   fst (loadPGN text g) = inl (InvalidNotation "PGN") /\
   snd (loadPGN text g) = set_chess (snd (chess_load_pgn text (chess g))) g /\
   ready (snd (loadPGN text g)) = ready g /\
   (rejectsAtomically -> snd (loadPGN text g) = g)) /\
  (fst (chess_load text (chess g)) = true ->
   fst (loadFEN text g) = inr tt /\
   snd (loadFEN text g) = set_ready true (set_chess (snd (chess_load text (chess g))) g) /\
   ready (snd (loadFEN text g)) = true) /\
  (fst (chess_load_pgn text (chess g)) = true ->
   fst (loadPGN text g) = inr tt /\
   snd (loadPGN text g) =
     set_ready true (set_chess (snd (chess_load_pgn text (chess g))) g) /\
   ready (snd (loadPGN text g)) = true).
Proof.
  unfold loadFEN, loadPGN. repeat split.
  all: try (destruct (chess_load text (chess g)) as [ok c] eqn:E; simpl in *; subst;
            reflexivity).
  all: try (destruct (chess_load_pgn text (chess g)) as [ok c] eqn:E; simpl in *; subst;
            reflexivity).
  - intros Hatomic. destruct (Hatomic text (chess g)) as [Hfen _].
    destruct (chess_load text (chess g)) as [ok c]; simpl in *; subst.
    rewrite (Hfen eq_refl). simpl. apply set_chess_same.
  - intros Hatomic. destruct (Hatomic text (chess g)) as [_ Hpgn].
    destruct (chess_load_pgn text (chess g)) as [ok c]; simpl in *; subst.
    rewrite (Hpgn eq_refl). simpl. apply set_chess_same.
Qed.

End Notation.

(** ** Readiness *)
Section Readiness.
Context {Chess Image Buffer : Type}.
Context `{!RulesEngine Chess} `{!Rasterizer Image Buffer}.
Variable cfg : Config.
Implicit Types (g : Generator Chess).

(** A call sets the ready flag exactly when it is a load that returns
    normally, and never clears it. *)
Lemma perform_ready (c : Call) g :
  ready (snd (perform cfg c g)) = ready g || (isLoad c && fst (perform cfg c g)).
Proof.
  destruct c as [pgn|fen|array|squares| |pngPath]; simpl.
  - unfold loadPGN. destruct (chess_load_pgn pgn (chess g)) as [[|] c]; simpl;
      [apply eq_sym, orb_true_r | apply eq_sym, orb_false_r].
  - unfold loadFEN. destruct (chess_load fen (chess g)) as [[|] c]; simpl;
      [apply eq_sym, orb_true_r | apply eq_sym, orb_false_r].
  - apply eq_sym, orb_true_r.
  - apply eq_sym, orb_false_r.
  - apply eq_sym, orb_false_r.
  - apply eq_sym, orb_false_r.
Qed.

(** The ready flag after a session records whether a load has succeeded. *)
Lemma session_ready (calls : list Call) g :
  ready (session cfg calls g) = ready g || someLoadSucceeded cfg calls g.
Proof.
  revert g. induction calls as [|c calls IH]; intros g; simpl.
  - apply eq_sym, orb_false_r.
  - rewrite IH, perform_ready. now rewrite orb_assoc.
Qed.

(** C5.  On a renderer that has gone through any sequence of calls since
    its construction, [generateBuffer] and [generatePNG] throw the
    not-ready error, and return no image, when no load call of the
    sequence has succeeded; once a load has succeeded neither of them
    throws that error. *)
Theorem render_requires_successful_load (options : Options) (calls : list Call)
    (pngPath : string) :
  let g := session cfg calls (ChessImageGenerator cfg options) in
  if someLoadSucceeded cfg calls (ChessImageGenerator cfg options)
  then isNotReady (generateBuffer cfg g) = false /\
       isNotReady (generatePNG cfg pngPath g) = false
  else generateBuffer cfg g = inl NotReady /\
       generatePNG cfg pngPath g = inl NotReady.
Proof.
  intros g.
  assert (ready g = someLoadSucceeded cfg calls (ChessImageGenerator cfg options)) as Hr
    by (unfold g; now rewrite session_ready).
  destruct (someLoadSucceeded cfg calls (ChessImageGenerator cfg options)).
  - now rewrite generateBuffer_isNotReady, generatePNG_isNotReady, Hr.
  - split; [now apply generateBuffer_not_ready | now apply generatePNG_not_ready].
Qed.

Lemma placements_noPieceCodes (array : list (list string)) :
  noPieceCodes cfg array -> placements cfg array = [].
Proof.
  intros Hnone. destruct (placements cfg array) as [|p rest] eqn:Ep; [reflexivity|].
  assert (In p (placements cfg array)) as Hin by (rewrite Ep; now left).
  apply In_placementsFrom in Hin as (i & j & array_i & cell & Hi & Hj & Hp).
  unfold placementAt in Hp.
  rewrite (Hnone array_i cell) in Hp; [discriminate | |].
  - apply list_elem_of_In, list_elem_of_lookup. eauto.
  - apply list_elem_of_In, list_elem_of_lookup. eauto.
Qed.

Lemma inSequence_all_inr {A X : Type} (f : A -> exn + list X) (l : list A) :
  (forall a, returned (f a) = true) -> returned (inSequence (map f l)) = true.
Proof.
  intros Hall. induction l as [|a l IH]; simpl; [reflexivity|].
  specialize (Hall a). destruct (f a); [discriminate|].
  destruct (inSequence (map f l)); [discriminate | reflexivity].
Qed.

Lemma cellOps_no_DrawImage g i j :
  pieceAt cfg g i j = None ->
  Forall (fun op => isDrawImage op = false) (cellOps (Image:=Image) cfg g i j).
Proof.
  intros Hnone. unfold cellOps, pieceOps, pieceLayer. rewrite Hnone.
  unfold darkSquareLayer, rowNumberLayer, columnLetterLayer, highlightLayer.
  repeat (apply Forall_app; split).
  - destruct (isEven (i + j)); repeat constructor.
  - destruct (drawLabels g && (j =? 0)%Z); repeat constructor.
  - destruct (drawLabels g && (i =? 0)%Z); repeat constructor.
  - destruct (getSquareHighlight _ g) as [h|]; [|constructor].
    destruct (String.eqb h ""); repeat constructor.
  - constructor.
Qed.

(** A ready generator on whose position no square holds a piece renders
    without failure, and the canvas holds no sprite. *)
Lemma empty_position_renders g :
  ready g = true -> (forall i j, pieceAt cfg g i j = None) ->
  exists c : Canvas Image,
    generateCanvas cfg g = inr c /\ generateBuffer cfg g = inr (toBuffer c) /\
    Forall (fun op => isDrawImage op = false) (drawn c).
Proof.
  intros Hr Hnone.
  assert (returned (boardLayers (Image:=Image) cfg g) = true) as Hb.
  { unfold boardLayers. apply inSequence_all_inr. intros i.
    apply inSequence_all_inr. intros j.
    unfold cellLayers, pieceLayer. now rewrite Hnone. }
  pose proof (generateCanvas_layers cfg g) as Hc. rewrite Hr in Hc. simpl in Hc.
  destruct (boardLayers cfg g) as [e|l] eqn:Eb; [discriminate|].
  eexists. split; [exact Hc|]. split; [unfold generateBuffer; now rewrite Hc|].
  simpl. constructor; [reflexivity|].
  apply boardLayers_inr in Eb. subst l.
  apply Forall_flat_map, Forall_forall. intros [i j] _. now apply cellOps_no_DrawImage.
Qed.

(** C10.  [loadArray] sets the ready flag whatever the grid, so the
    render that follows never throws the not-ready error.  When the grid
    holds no recognised piece code (the empty array is such a grid) the
    engine is cleared and receives no [put]; if no square of a cleared
    board holds a piece, the render succeeds and draws no sprite. *)
Theorem loadArray_always_ready (array : list (list string)) g (pngPath : string) :
  ready (loadArray cfg array g) = true /\
  isNotReady (generateBuffer cfg (loadArray cfg array g)) = false /\
  isNotReady (generatePNG cfg pngPath (loadArray cfg array g)) = false /\
  noPieceCodes cfg [] /\
  (noPieceCodes cfg array ->
   chess (loadArray cfg array g) = chess_clear (chess g) /\
   (clearEmptiesBoard ->
    exists c : Canvas Image,
      generateCanvas cfg (loadArray cfg array g) = inr c /\
      generateBuffer cfg (loadArray cfg array g) = inr (toBuffer c) /\
      Forall (fun op => isDrawImage op = false) (drawn c))).
Proof.
  split; [reflexivity|].
  split; [now rewrite generateBuffer_isNotReady|].
  split; [now rewrite generatePNG_isNotReady|].
  split; [intros array_i cell []|].
  intros Hnone.
  assert (chess (loadArray cfg array g) = chess_clear (chess g)) as Hchess.
  { rewrite loadArray_chess, (placements_noPieceCodes array Hnone). reflexivity. }
  split; [exact Hchess|].
  intros Hclear. apply empty_position_renders; [reflexivity|].
  intros i j. unfold pieceAt. now rewrite Hchess, Hclear.
Qed.

End Readiness.

(** ** The two variants render alike *)
Section Variants.
Context {Chess Image Buffer : Type}.
Context `{!RulesEngine Chess} `{!Rasterizer Image Buffer}.
Variable cfg : Config.
Implicit Types (g : Generator Chess).

Lemma Base_drawColumnLetters_eq g i j :
  Base.drawColumnLetters cfg g i j = drawColumnLetters cfg g i j.
Proof.
  unfold Base.drawColumnLetters, drawColumnLetters, Base.columnLetter, Base.col, col.
  now destruct (flipped g).
Qed.

Lemma Base_drawPiece_eq g i j : Base.drawPiece cfg g i j = drawPiece cfg g i j.
Proof.
  unfold Base.drawPiece, drawPiece, Base.squareAt, squareAt, Base.col, Base.row, col, row.
  now destruct (flipped g).
Qed.

Lemma Base_drawCell_performs g i j :
  highlightLayer (Image:=Image) cfg g i j = [] ->
  performs (BoldPtArial (fontSize g)) (Base.drawCell cfg g i j) (cellLayers cfg g i j).
Proof.
  intros Hnone. unfold Base.drawCell, cellLayers.
  rewrite Base_drawColumnLetters_eq, Base_drawPiece_eq, Hnone, app_nil_r.
  pose proof (performs_bind _ _ _ _ _ (fillDarkSquare_performs (BoldPtArial (fontSize g)) g i j)
    (performs_bind _ _ _ _ _ (drawRowNumbers_performs g i j)
      (performs_bind _ _ _ _ _ (drawColumnLetters_performs cfg g i j)
        (drawPiece_performs cfg _ g i j)))) as H.
  destruct (pieceLayer cfg g i j) as [e|l]; simpl in *; [exact H|].
  rewrite <- !app_assoc. exact H.
Qed.

(** X1.  On an object none of whose squares is highlighted, the variant without
    highlights produces the canvas of the variant with highlights, or
    fails with the same exception. *)
Theorem variants_render_alike g :
  (forall i j : Z, highlightLayer (Image:=Image) cfg g i j = []) ->
  Base.generateCanvas cfg g = generateCanvas cfg g.
Proof.
  intros Hnone. rewrite generateCanvas_layers. unfold Base.generateCanvas.
  destruct (negb (ready g)); [reflexivity|].
  set (ctx1 := {| fillStyle := light g; font := BoldPtArial (fontSize g);
                  canvas := {| canvas_width := size g; canvas_height := size g;
                               drawn := [boardFill g] |} |} : Ctx Image).
  change (Base.paint cfg g (getContext (createCanvas (size g) (size g))))
    with (forUpTo 8 0 (fun i => forUpTo 8 0 (fun j => Base.drawCell cfg g i j)) ctx1).
  assert (performs (BoldPtArial (fontSize g))
            (forUpTo 8 0 (fun i => forUpTo 8 0 (fun j => Base.drawCell cfg g i j)))
            (boardLayers cfg g)) as H.
  { unfold boardLayers.
    apply (forUpTo_performs _ _
             (fun i => inSequence (map (fun j => cellLayers cfg g i j) (indices 8 0)))).
    intros i. apply (forUpTo_performs _ _ (fun j => cellLayers cfg g i j)).
    intros j. apply Base_drawCell_performs, Hnone. }
  specialize (H ctx1 eq_refl).
  destruct (boardLayers cfg g) as [e|l].
  - now rewrite H.
  - destruct H as (ctx' & -> & _ & Hw & Hh & Hd).
    destruct ctx' as [fs fn [w h d]]; simpl in *. now subst.
Qed.

End Variants.

(** * Further properties of the code *)

(** ** Colours of the squares *)
Section Convention.
Context {Chess Image : Type}.
Variable cfg : Config.
Implicit Types (g : Generator Chess).

Lemma even_mod (k : Z) : Z.even k = isEven k.
Proof.
  unfold isEven. rewrite Zmod_even. now destruct (Z.even k).
Qed.

(** X2.  Each cell of the grid shows a square of the board, and the square is
    painted dark exactly when its file index (a = 0, ..., h = 7) plus its
    rank is odd, in either orientation: a1 is dark, h1 is light. *)
Theorem squares_have_conventional_colour g (i j : Z) :
  0 <= i < 8 -> 0 <= j < 8 ->
  let f := if flipped g then 7 - j else j in
  let r := if flipped g then 8 - i else i + 1 in
  0 <= f < 8 /\ 1 <= r <= 8 /\
  squareAt cfg g i j = jsPlus (strAt (cols cfg) f) r /\
  darkSquareLayer (Image:=Image) g i j =
    if Z.odd (f + r)
    then [FillRect (dark g) (cellX g j) (cellY g i) (cellSide g) (cellSide g)]
    else [].
Proof.
  intros Hi Hj. unfold squareAt, darkSquareLayer, col, row.
  destruct (flipped g); cbv zeta.
  - split; [lia|]. split; [lia|]. split; [f_equal; lia|].
    replace (7 - j + (8 - i)) with (Z.succ (14 - (i + j))) by lia.
    rewrite Z.odd_succ, Z.even_sub, <- even_mod. simpl Z.even.
    now destruct (Z.even (i + j)).
  - split; [lia|]. split; [lia|]. split; [reflexivity|].
    replace (j + (i + 1)) with (Z.succ (i + j)) by lia.
    now rewrite Z.odd_succ, even_mod.
Qed.

End Convention.

(** ** Codes, kinds and sides *)

Lemma lowerAscii_idempotent (c : ascii) : lowerAscii (lowerAscii c) = lowerAscii c.
Proof.
  destruct c as [[] [] [] [] [] [] [] []]; vm_compute; reflexivity.
Qed.

Lemma toLowerCase_idempotent (s : string) : toLowerCase (toLowerCase s) = toLowerCase s.
Proof.
  induction s as [|c s IH]; simpl; [reflexivity|].
  now rewrite lowerAscii_idempotent, IH.
Qed.

Lemma toLowerCase_empty (s : string) : String.eqb (toLowerCase s) "" = String.eqb s "".
Proof. now destruct s. Qed.

Section Codes.
Context {Chess : Type} `{!RulesEngine Chess}.
Variable cfg : Config.

Lemma pieceOfCell_drawable (cell : string) :
  recognized cfg cell = true -> drawable cfg (pieceOfCell cfg cell) = true.
Proof.
  unfold recognized, drawable, pieceOfCell. simpl.
  now rewrite toLowerCase_idempotent, toLowerCase_empty.
Qed.

(** X3.  What [loadArray] places is never skipped by the render: the piece
    built for a recognised code passes the guard of "Draw Piece".  The
    case of a code decides the side only: a code and its lower-case form
    are recognised alike and give the same kind. *)
Theorem placed_pieces_are_drawable (cell : string) :
  (recognized cfg cell = true -> drawable cfg (pieceOfCell cfg cell) = true) /\
  recognized cfg (toLowerCase cell) = recognized cfg cell /\
  piece_type (pieceOfCell cfg (toLowerCase cell)) = piece_type (pieceOfCell cfg cell).
Proof.
  unfold recognized, drawable, pieceOfCell. simpl.
  rewrite !toLowerCase_idempotent, toLowerCase_empty. auto.
Qed.

Lemma strAt_None (s : string) (k : Z) :
  strAt s k = None <-> k < 0 \/ Z.of_nat (String.length s) <= k.
Proof.
  unfold strAt. destruct (k <? 0)%Z eqn:Ek.
  - apply Z.ltb_lt in Ek. split; auto.
  - apply Z.ltb_ge in Ek.
    assert (forall (n : nat) (t : string),
               String.get n t = None <-> (String.length t <= n)%nat) as Hget.
    { intros n t. revert n. induction t as [|c t IH]; intros n; simpl.
      - split; [lia | reflexivity].
      - destruct n as [|n]; [split; [discriminate | lia]|]. rewrite IH. lia. }
    destruct (String.get (Z.to_nat k) s) as [c|] eqn:Eg.
    + split; [discriminate|]. intros [Hlt | Hge]; [lia|].
      assert (String.get (Z.to_nat k) s = None) as Hn by (apply Hget; lia). congruence.
    + split; [|reflexivity]. intros _. right. apply Hget in Eg. lia.
Qed.

(** X4.  [loadArray] does not bound the grid.  A recognised code in a column
    for which [cols] has no letter (and in any row) is still put, on the
    square [NaN]; a recognised code in row [i], under a column that has
    a letter, is put on rank [8 - i] whatever [i] is, so the ninth row of
    a grid goes to rank 0. *)
Theorem loadArray_does_not_bound_the_grid (array : list (list string)) (i j : nat)
    (array_i : list string) (cell : string) :
  array !! i = Some array_i -> array_i !! j = Some cell -> recognized cfg cell = true ->
  (Z.of_nat (String.length (cols cfg)) <= Z.of_nat j ->
   In (pieceOfCell cfg cell, JNaN) (placements cfg array)) /\
  (forall letter : string,
      strAt (cols cfg) (Z.of_nat j) = Some letter ->
      In (pieceOfCell cfg cell, JStr (letter +:+ numToString (8 - Z.of_nat i)))
         (placements cfg array)) /\
  numToString (8 - 8) = "0".
Proof.
  intros Hi Hj Hrec.
  assert (forall sq, jsPlus (strAt (cols cfg) (Z.of_nat j)) (8 - Z.of_nat i) = sq ->
                     In (pieceOfCell cfg cell, sq) (placements cfg array)) as Hput.
  { intros sq Hsq. unfold placements. apply In_placementsFrom.
    exists i, j, array_i, cell. split; [exact Hi|]. split; [exact Hj|].
    change (0 + Z.of_nat i) with (Z.of_nat i).
    unfold placementAt. now rewrite Hrec, Hsq. }
  split; [|split; [|reflexivity]].
  - intros Hwide. apply Hput.
    assert (strAt (cols cfg) (Z.of_nat j) = None) as -> by (apply strAt_None; lia).
    reflexivity.
  - intros letter Hletter. apply Hput. now rewrite Hletter.
Qed.

End Codes.

(** ** Resolved highlights *)
Section ResolvedHighlights.
Context {Chess Image : Type}.
Variable cfg : Config.
Implicit Types (g : Generator Chess).

(** X5.  On a generator whose default highlight colour is not empty,
    [getSquareHighlight] returns [null] or a non-empty colour, so the
    truthiness test of "Highlight Square" drops nothing that was
    resolved: a cell is overpainted exactly when its square resolves to a
    colour.  A falsy square ([NaN], the empty name) never resolves,
    whatever the map holds under its key. *)
Theorem resolved_highlight_is_drawn g :
  highlight g <> "" ->
  (forall (square : JsVal) (h : string), getSquareHighlight square g = Some h -> h <> "") /\
  (forall square : JsVal, truthy square = false -> getSquareHighlight square g = None) /\
  (forall i j : Z,
      highlightLayer (Image:=Image) cfg g i j =
        match getSquareHighlight (squareAt cfg g i j) g with
        | Some h => [FillRect h (cellX g j) (cellY g i) (cellSide g) (cellSide g)]
        | None => []
        end).
Proof.
  intros Hdefault.
  assert (forall (square : JsVal) (h : string),
             getSquareHighlight square g = Some h -> h <> "") as Htruthy.
  { intros square h. unfold getSquareHighlight.
    destruct (highlightedSquares g) as [squares|]; [|discriminate].
    destruct (negb (truthy square)); [discriminate|].
    destruct (squares !! propertyKey square) as [v|]; [|discriminate].
    destruct (negb (truthy v)) eqn:Ev; [discriminate|].
    destruct v; intros Hh; inversion Hh; subst; try exact Hdefault.
    simpl in Ev. intros ->. discriminate Ev. }
  split; [exact Htruthy|]. split.
  - intros square Hfalsy. unfold getSquareHighlight.
    destruct (highlightedSquares g); [|reflexivity]. now rewrite Hfalsy.
  - intros i j. unfold highlightLayer.
    destruct (getSquareHighlight (squareAt cfg g i j) g) as [h|] eqn:Eh; [|reflexivity].
    apply Htruthy in Eh. destruct (String.eqb_spec h ""); [contradiction | reflexivity].
Qed.

End ResolvedHighlights.

(** ** What a session leaves alone *)
Section SessionFrame.
Context {Chess Image Buffer : Type}.
Context `{!RulesEngine Chess} `{!Rasterizer Image Buffer}.
Variable cfg : Config.
Implicit Types (g : Generator Chess).

Lemma sameConfiguration_refl g : sameConfiguration g g.
Proof. repeat split. Qed.

Lemma sameConfiguration_trans g1 g2 g3 :
  sameConfiguration g1 g2 -> sameConfiguration g2 g3 -> sameConfiguration g1 g3.
Proof.
  unfold sameConfiguration. intros H12 H23.
  destruct H12 as (? & ? & ? & ? & ? & ? & ? & ? & ?).
  destruct H23 as (? & ? & ? & ? & ? & ? & ? & ? & ?).
  repeat split; congruence.
Qed.

Lemma perform_frame (c : Call) g :
  sameConfiguration g (snd (perform cfg c g)) /\
  highlightedSquares (snd (perform cfg c g)) =
    match c with
    | CallSetHighlightedSquares squares => squares
    | _ => highlightedSquares g
    end /\
  (isLoad c = false -> chess (snd (perform cfg c g)) = chess g).
Proof.
  unfold sameConfiguration.
  destruct c as [pgn|fen|array|squares| |pngPath]; simpl.
  - unfold loadPGN. destruct (chess_load_pgn pgn (chess g)) as [[|] c]; simpl;
      repeat split; discriminate.
  - unfold loadFEN. destruct (chess_load fen (chess g)) as [[|] c]; simpl;
      repeat split; discriminate.
  - repeat split; discriminate.
  - repeat split.
  - repeat split.
  - repeat split.
Qed.

Lemma session_sameConfiguration (calls : list Call) g :
  sameConfiguration g (session cfg calls g).
Proof.
  revert g. induction calls as [|c calls IH]; intros g; simpl.
  - apply sameConfiguration_refl.
  - eapply sameConfiguration_trans; [apply (perform_frame c g) | apply IH].
Qed.

(** X6.  No call changes the render configuration: size, colours, style, label
    switch and orientation stay what the constructor made them.  The
    highlight map is the argument of the last [setHighlightedSquares] (the
    loaders leave it alone: a new position keeps the old highlights), and
    the position changes through the loaders only. *)
Theorem session_keeps_configuration (calls : list Call) g :
  sameConfiguration g (session cfg calls g) /\
  highlightedSquares (session cfg calls g) = highlightsAfter calls (highlightedSquares g) /\
  (forallb (fun c => negb (isLoad c)) calls = true ->
   chess (session cfg calls g) = chess g /\ ready (session cfg calls g) = ready g).
Proof.
  split; [apply session_sameConfiguration|]. split.
  - revert g. induction calls as [|c calls IH]; intros g; simpl; [reflexivity|].
    rewrite IH. destruct (perform_frame c g) as (_ & -> & _). now destruct c.
  - revert g. induction calls as [|c calls IH]; intros g; simpl; [auto|].
    intros Hnone. apply andb_prop in Hnone as [Hc Hrest].
    apply negb_true_iff in Hc.
    destruct (IH (snd (perform cfg c g)) Hrest) as [-> ->].
    destruct (perform_frame c g) as (_ & _ & Hchess).
    split; [now apply Hchess|].
    rewrite perform_ready, Hc. simpl. apply orb_false_r.
Qed.

Lemma strOr_nonempty (o : option string) (d : string) : d <> "" -> strOr o d <> "".
Proof.
  intros Hd. unfold strOr. destruct o as [s|]; [|exact Hd].
  destruct (String.eqb_spec s ""); [exact Hd | assumption].
Qed.

(** X7.  Whatever the options, a generator never has an empty colour or style
    nor a zero size, at any point of a session, as long as the defaults of
    the configuration are not empty or zero themselves: a falsy option
    falls back to its default. *)
Theorem generator_fields_are_truthy (options : Options) (calls : list Call) :
  defaultLight cfg <> "" -> defaultDark cfg <> "" -> defaultHighlight cfg <> "" ->
  defaultStyle cfg <> "" -> Qeq_bool (defaultSize cfg) 0 = false ->
  let g := session cfg calls (ChessImageGenerator cfg options) in
  light g <> "" /\ dark g <> "" /\ highlight g <> "" /\ style g <> "" /\
  labelLight g <> "" /\ labelDark g <> "" /\ Qeq_bool (size g) 0 = false.
Proof.
  intros Hl Hd Hh Hs Hz g.
  destruct (session_sameConfiguration calls (ChessImageGenerator cfg options))
    as (Esz & El & Ed & Eh & Es & _ & Ell & Eld & _).
  fold g in Esz, El, Ed, Eh, Es, Ell, Eld.
  rewrite Esz, El, Ed, Eh, Es, Ell, Eld. simpl.
  repeat split; try (repeat apply strOr_nonempty; assumption).
  unfold numOr. destruct (opt_size options) as [q|]; [|exact Hz].
  now destruct (Qeq_bool q 0) eqn:Eq.
Qed.

End SessionFrame.

(** ** When a render succeeds and how it fails *)
Section RenderFailures.
Context {Chess Image Buffer : Type}.
Context `{!RulesEngine Chess} `{!Rasterizer Image Buffer}.
Variable cfg : Config.
Implicit Types (g : Generator Chess).

Lemma inSequence_returned {A X : Type} (f : A -> exn + list X) (l : list A) :
  returned (inSequence (map f l)) = true <-> Forall (fun a => returned (f a) = true) l.
Proof.
  induction l as [|a l IH]; simpl.
  - split; [constructor | reflexivity].
  - rewrite Forall_cons, <- IH.
    destruct (f a); simpl; [split; [discriminate | intros [? _]; discriminate]|].
    destruct (inSequence (map f l)); simpl; intuition discriminate.
Qed.

(** The first failure of a sequence: everything before it succeeded. *)
Lemma inSequence_first_failure {A X : Type} (f : A -> exn + list X) (l : list A) (e : exn) :
  inSequence (map f l) = inl e ->
  exists (before : list A) (a : A) (after : list A),
    l = before ++ a :: after /\ f a = inl e /\
    Forall (fun b => returned (f b) = true) before.
Proof.
  induction l as [|a l IH]; simpl; intros Hs; [discriminate|].
  destruct (f a) as [e'|o] eqn:Ea; simpl in Hs.
  - inversion Hs; subst. exists [], a, l. repeat split; [exact Ea | constructor].
  - destruct (inSequence (map f l)) as [e'|rest]; [|discriminate].
    inversion Hs; subst. destruct (IH eq_refl) as (before & b & after & -> & Hb & Hall).
    exists (a :: before), b, after. repeat split; [exact Hb|].
    constructor; [now rewrite Ea | exact Hall].
Qed.

Lemma indices_prefix (n : nat) (i : Z) (before : list Z) (a : Z) (after : list Z) :
  indices n i = before ++ a :: after ->
  i <= a < i + Z.of_nat n /\ forall b, i <= b < a -> In b before.
Proof.
  revert n i. induction before as [|b0 before IH]; intros n i Hsplit.
  - destruct n as [|n]; simpl in Hsplit; [discriminate|]. inversion Hsplit; subst.
    split; [lia | intros b Hb; lia].
  - destruct n as [|n]; simpl in Hsplit; [discriminate|]. inversion Hsplit; subst.
    destruct (IH n (b0 + 1) H1) as [Ha Hbefore]. split; [lia|].
    intros b Hb. destruct (Z.eq_dec b b0) as [->|Hne]; [now left|].
    right. apply Hbefore. lia.
Qed.

Lemma returned_cellLayers g i j :
  returned (cellLayers (Image:=Image) cfg g i j) = returned (pieceLayer (Image:=Image) cfg g i j).
Proof.
  unfold cellLayers. now destruct (pieceLayer cfg g i j).
Qed.

Lemma returned_pieceLayer g i j :
  returned (pieceLayer (Image:=Image) cfg g i j) = true <->
  forall piece, pieceAt cfg g i j = Some piece ->
    exists img : Image, loadImage (pathJoin dirname (spritePath cfg g piece)) = Some img.
Proof.
  unfold pieceLayer. destruct (pieceAt cfg g i j) as [piece|].
  - destruct (loadImage _) as [img|] eqn:El; simpl.
    + split; [|reflexivity]. intros _ p Hp. inversion Hp; subst. eauto.
    + split; [discriminate|]. intros Hall. destruct (Hall piece eq_refl) as [img Himg].
      congruence.
  - simpl. split; [|reflexivity]. intros _ p Hp. discriminate Hp.
Qed.

(** X8.  [generateBuffer] returns a buffer exactly when the generator is ready
    and the sprite of every piece it has to draw can be loaded. *)
Theorem render_succeeds_iff g :
  returned (generateBuffer cfg g) = true <->
  ready g = true /\
  forall (i j : Z) (piece : Piece),
    0 <= i < 8 -> 0 <= j < 8 -> pieceAt cfg g i j = Some piece ->
    exists img : Image, loadImage (pathJoin dirname (spritePath cfg g piece)) = Some img.
Proof.
  assert (returned (generateBuffer cfg g) = ready g && returned (boardLayers (Image:=Image) cfg g))
    as ->.
  { unfold generateBuffer. rewrite generateCanvas_layers.
    destruct (ready g); simpl; [|reflexivity]. now destruct (boardLayers cfg g). }
  rewrite andb_true_iff. unfold boardLayers. rewrite inSequence_returned.
  split.
  - intros [Hr Hall]. split; [exact Hr|]. intros i j piece Hi Hj Hp.
    rewrite Forall_forall in Hall. specialize (Hall i).
    rewrite inSequence_returned, Forall_forall in Hall.
    assert (returned (cellLayers (Image:=Image) cfg g i j) = true) as Hc.
    { apply Hall; apply list_elem_of_In, In_indices; lia. }
    rewrite returned_cellLayers in Hc. now apply (returned_pieceLayer g i j).
  - intros [Hr Hall]. split; [exact Hr|].
    apply Forall_forall. intros i Hi. apply list_elem_of_In, In_indices in Hi.
    apply inSequence_returned, Forall_forall. intros j Hj.
    apply list_elem_of_In, In_indices in Hj.
    rewrite returned_cellLayers. apply returned_pieceLayer.
    intros piece Hp. apply (Hall i j piece); [lia | lia | exact Hp].
Qed.

(** X9.  A render that fails on a ready generator fails on a sprite: the
    exception carries the path of the sprite of a piece on the board whose
    image could not be loaded, the first such piece in drawing order
    (rows [i] upwards, columns [j] within a row). *)
Theorem render_failure_names_first_sprite g (e : exn) :
  generateBuffer cfg g = inl e -> ready g = true ->
  exists (i j : Z) (piece : Piece),
    0 <= i < 8 /\ 0 <= j < 8 /\ pieceAt cfg g i j = Some piece /\
    loadImage (pathJoin dirname (spritePath cfg g piece)) = None /\
    e = ImageLoadFailure (pathJoin dirname (spritePath cfg g piece)) /\
    forall i' j' : Z,
      0 <= i' < 8 -> 0 <= j' < 8 -> i' < i \/ (i' = i /\ j' < j) ->
      returned (pieceLayer (Image:=Image) cfg g i' j') = true.
Proof.
  intros Hfail Hr.
  assert (boardLayers (Image:=Image) cfg g = inl e) as Hb.
  { unfold generateBuffer in Hfail. rewrite generateCanvas_layers, Hr in Hfail. simpl in Hfail.
    destruct (boardLayers cfg g); [now inversion Hfail | discriminate]. }
  unfold boardLayers in Hb.
  apply inSequence_first_failure in Hb as (rows & i & rows' & Hrows & Hi & Hbefore).
  apply inSequence_first_failure in Hi as (cs & j & cs' & Hcs & Hj & Hleft).
  apply indices_prefix in Hrows as [Hir Hrows]. apply indices_prefix in Hcs as [Hjr Hcs].
  unfold cellLayers in Hj.
  destruct (pieceLayer cfg g i j) as [e'|ops] eqn:Ep; simpl in Hj; [|discriminate].
  inversion Hj; subst e'. unfold pieceLayer in Ep.
  destruct (pieceAt cfg g i j) as [piece|] eqn:Epiece; [|discriminate].
  destruct (loadImage _) as [img|] eqn:El; [discriminate|]. inversion Ep; subst e.
  exists i, j, piece. split; [lia|]. split; [lia|]. split; [exact Epiece|].
  split; [exact El|]. split; [reflexivity|].
  intros i' j' Hi' Hj' [Hlt | [-> Hlt]].
  - rewrite Forall_forall in Hbefore.
    assert (returned (inSequence (map (fun j => cellLayers (Image:=Image) cfg g i' j)
                                      (indices 8 0))) = true) as Hrow
      by (apply Hbefore, list_elem_of_In, Hrows; lia).
    rewrite inSequence_returned, Forall_forall in Hrow.
    rewrite <- returned_cellLayers. apply Hrow, list_elem_of_In, In_indices. lia.
  - rewrite Forall_forall in Hleft.
    rewrite <- returned_cellLayers. apply Hleft, list_elem_of_In, Hcs. lia.
Qed.

End RenderFailures.

(** ** Geometry of the cells *)

Lemma scale_mono (t : Q) (a b : Z) :
  (0 <= t)%Q -> a <= b -> (t * inject_Z a <= t * inject_Z b)%Q.
Proof.
  intros Ht Hab. rewrite !(Qmult_comm t).
  apply Qmult_le_compat_r; [|exact Ht]. now rewrite <- Zle_Qle.
Qed.

Lemma scale_next (t : Q) (k : Z) : (t * inject_Z k + t == t * inject_Z (k + 1))%Q.
Proof. rewrite inject_Z_plus. change (inject_Z 1) with 1%Q. ring. Qed.

Lemma eighth_nonneg (s : Q) : (0 <= s)%Q -> (0 <= s / 8)%Q.
Proof.
  intros Hs. unfold Qdiv. apply Qmult_le_0_compat; [exact Hs | discriminate].
Qed.

Lemma eight_eighths (s : Q) : (s / 8 * inject_Z 8 == s)%Q.
Proof. change (inject_Z 8) with 8%Q. field. Qed.

Section Geometry.
Context {Chess Image Buffer : Type}.
Context `{!RulesEngine Chess} `{!Rasterizer Image Buffer}.
Variable cfg : Config.
Implicit Types (g : Generator Chess).

Lemma cell_rect_ops g i j (op : DrawOp Image) (rect : Q * Q * Q * Q) :
  In op (cellOps cfg g i j) -> rectOf op = Some rect ->
  rect = (cellX g j, cellY g i, cellSide g, cellSide g).
Proof.
  unfold cellOps, darkSquareLayer, rowNumberLayer, columnLetterLayer, highlightLayer,
    pieceOps, pieceLayer.
  intros Hin Hrect. rewrite !in_app_iff in Hin.
  destruct Hin as [Hin | [Hin | [Hin | [Hin | Hin]]]].
  - destruct (isEven (i + j)); [|destruct Hin].
    destruct Hin as [<- | []]. now inversion Hrect.
  - destruct (drawLabels g && (j =? 0)%Z); [|destruct Hin].
    destruct Hin as [<- | []]. discriminate Hrect.
  - destruct (drawLabels g && (i =? 0)%Z); [|destruct Hin].
    destruct Hin as [<- | []]. discriminate Hrect.
  - destruct (getSquareHighlight _ g) as [h|]; [|destruct Hin].
    destruct (String.eqb h ""); [destruct Hin|].
    destruct Hin as [<- | []]. now inversion Hrect.
  - destruct (pieceAt cfg g i j); [|destruct Hin].
    destruct (loadImage _); [|destruct Hin].
    destruct Hin as [<- | []]. now inversion Hrect.
Qed.

(** X10.  For a size that is a whole number of pixels (from 0 to 2^50),
    the 64 cells tile the canvas: every cell lies inside the [size] by
    [size] square, cells of different columns or rows do not overlap, and
    every rectangle a successful render fills or draws a sprite into
    after the base fill is exactly the rectangle of one cell (with [i = 0]
    the bottom row and [j = 0] the left column).  For such a size every
    quotient, product and sum below is a multiple of 1/8 below 2^53 and
    so is computed without rounding by JavaScript's numbers; for a
    fractional size the rounded coordinates can differ from the exact
    ones in the last place, and the inequalities are not claimed. *)
Theorem cells_tile_the_canvas g (n : Z) :
  0 <= n <= 2 ^ 50 -> (size g == inject_Z n)%Q ->
  (forall i j : Z,
      0 <= i < 8 -> 0 <= j < 8 ->
      (0 <= cellX g j)%Q /\ (cellX g j + cellSide g <= size g)%Q /\
      (0 <= cellY g i)%Q /\ (cellY g i + cellSide g <= size g)%Q) /\
  (forall j j' : Z,
      0 <= j -> j < j' -> j' < 8 -> (cellX g j + cellSide g <= cellX g j')%Q) /\
  (forall i i' : Z,
      0 <= i -> i < i' -> i' < 8 -> (cellY g i' + cellSide g <= cellY g i)%Q) /\
  (forall (c : Canvas Image) (op : DrawOp Image) (rect : Q * Q * Q * Q),
      generateCanvas cfg g = inr c -> In op (tl (drawn c)) -> rectOf op = Some rect ->
      exists i j : Z,
        0 <= i < 8 /\ 0 <= j < 8 /\ rect = (cellX g j, cellY g i, cellSide g, cellSide g)).
Proof.
  intros Hn Hwhole.
  assert (0 <= size g)%Q as Hsize
    by (rewrite Hwhole; change 0%Q with (inject_Z 0); rewrite <- Zle_Qle; lia).
  pose proof (eighth_nonneg (size g) Hsize) as Ht.
  unfold cellX, cellY, cellSide.
  split; [|split; [|split]].
  - intros i j Hi Hj. repeat split.
    + apply Qmult_le_0_compat; [exact Ht|]. change 0%Q with (inject_Z 0).
      rewrite <- Zle_Qle. lia.
    + rewrite scale_next. apply Qle_trans with (size g / 8 * inject_Z 8)%Q;
        [apply scale_mono; [exact Ht | lia] | rewrite eight_eighths; apply Qle_refl].
    + apply Qmult_le_0_compat; [exact Ht|]. change 0%Q with (inject_Z 0).
      rewrite <- Zle_Qle. lia.
    + rewrite scale_next. apply Qle_trans with (size g / 8 * inject_Z 8)%Q;
        [apply scale_mono; [exact Ht | lia] | rewrite eight_eighths; apply Qle_refl].
  - intros j j' _ Hlt _. rewrite scale_next. apply scale_mono; [exact Ht | lia].
  - intros i i' _ Hlt _. rewrite scale_next. apply scale_mono; [exact Ht | lia].
  - intros c op rect Hc Hin Hrect.
    apply generateCanvas_inr in Hc as (_ & _ & _ & Hd). rewrite Hd in Hin. cbn [tl] in Hin.
    apply in_flat_map in Hin as ([i j] & Hcell & Hop). cbn [fst snd] in Hop.
    apply In_cells in Hcell. exists i, j. split; [lia|]. split; [lia|].
    exact (cell_rect_ops g i j op rect Hop Hrect).
Qed.

Lemma length_flat_map_app {A X : Type} (f f' : A -> list X) (l : list A) :
  length (flat_map (fun a => f a ++ f' a) l) =
  (length (flat_map f l) + length (flat_map f' l))%nat.
Proof.
  induction l as [|a l IH]; simpl; [reflexivity|].
  rewrite !length_app, IH. lia.
Qed.

Lemma length_flat_map_le {A X : Type} (f : A -> list X) (l : list A) (k : nat) :
  (forall a, length (f a) <= k)%nat -> (length (flat_map f l) <= k * length l)%nat.
Proof.
  intros Hk. induction l as [|a l IH]; simpl; [lia|].
  rewrite length_app. specialize (Hk a). lia.
Qed.

(** X11.  A successful render consists of the base fill, 32 dark squares, the
    eight rank labels and the eight file labels when labels are on (none
    otherwise), at most one overpainted rectangle per cell for the
    highlights and at most one sprite per cell: never more than 177
    operations, of which at most 64 are sprites. *)
Theorem render_census g (c : Canvas Image) :
  generateCanvas cfg g = inr c ->
  let over (layer : Z -> Z -> list (DrawOp Image)) :=
    length (flat_map (fun ij => layer (fst ij) (snd ij)) cells) in
  over (darkSquareLayer g) = 32%nat /\
  over (rowNumberLayer g) = (if drawLabels g then 8 else 0)%nat /\
  over (columnLetterLayer cfg g) = (if drawLabels g then 8 else 0)%nat /\
  (over (highlightLayer cfg g) <= 64)%nat /\
  (over (pieceOps cfg g) <= 64)%nat /\
  length (drawn c) =
    (1 + over (darkSquareLayer g) + over (rowNumberLayer g) + over (columnLetterLayer cfg g)
     + over (highlightLayer cfg g) + over (pieceOps cfg g))%nat /\
  (length (drawn c) <= 177)%nat.
Proof.
  intros Hc over. apply generateCanvas_inr in Hc as (_ & _ & _ & Hd).
  assert (over (darkSquareLayer g) = 32%nat) as Hdark by reflexivity.
  assert (over (rowNumberLayer g) = (if drawLabels g then 8 else 0)%nat) as Hrow
    by (unfold over, rowNumberLayer; destruct (drawLabels g); reflexivity).
  assert (over (columnLetterLayer cfg g) = (if drawLabels g then 8 else 0)%nat) as Hcol
    by (unfold over, columnLetterLayer; destruct (drawLabels g); reflexivity).
  assert (over (highlightLayer cfg g) <= 64)%nat as Hhl.
  { apply (length_flat_map_le (fun ij => highlightLayer cfg g (fst ij) (snd ij)) cells 1).
    intros [i j]. unfold highlightLayer. simpl.
    destruct (getSquareHighlight _ g) as [h|]; [|simpl; lia].
    destruct (String.eqb h ""); simpl; lia. }
  assert (over (pieceOps cfg g) <= 64)%nat as Hpc.
  { apply (length_flat_map_le (fun ij => pieceOps cfg g (fst ij) (snd ij)) cells 1).
    intros [i j]. unfold pieceOps, pieceLayer. simpl.
    destruct (pieceAt cfg g i j); [|simpl; lia]. destruct (loadImage _); simpl; lia. }
  assert (length (drawn c) =
          (1 + over (darkSquareLayer g) + over (rowNumberLayer g)
           + over (columnLetterLayer cfg g) + over (highlightLayer cfg g)
           + over (pieceOps cfg g))%nat) as Hlen.
  { rewrite Hd. cbn [length]. unfold cellOps, over.
    rewrite (length_flat_map_app
               (fun ij => darkSquareLayer g (fst ij) (snd ij))
               (fun ij => rowNumberLayer g (fst ij) (snd ij) ++
                          columnLetterLayer cfg g (fst ij) (snd ij) ++
                          highlightLayer cfg g (fst ij) (snd ij) ++
                          pieceOps cfg g (fst ij) (snd ij)) cells).
    rewrite (length_flat_map_app
               (fun ij => rowNumberLayer g (fst ij) (snd ij))
               (fun ij => columnLetterLayer cfg g (fst ij) (snd ij) ++
                          highlightLayer cfg g (fst ij) (snd ij) ++
                          pieceOps cfg g (fst ij) (snd ij)) cells).
    rewrite (length_flat_map_app
               (fun ij => columnLetterLayer cfg g (fst ij) (snd ij))
               (fun ij => highlightLayer cfg g (fst ij) (snd ij) ++
                          pieceOps cfg g (fst ij) (snd ij)) cells).
    rewrite (length_flat_map_app
               (fun ij => highlightLayer cfg g (fst ij) (snd ij))
               (fun ij => pieceOps cfg g (fst ij) (snd ij)) cells).
    lia. }
  repeat split; try assumption.
  rewrite Hlen, Hdark, Hrow, Hcol. destruct (drawLabels g); lia.
Qed.

End Geometry.

(** ** Reading a loaded grid back *)
Section ReadBack.
Context {Chess Image Buffer : Type}.
Context `{!RulesEngine Chess} `{!Rasterizer Image Buffer}.
Variable cfg : Config.
Implicit Types (g : Generator Chess) (c : Chess).

Lemma get_applyPuts (s : string) (puts : list (Piece * JsVal)) c :
  lawfulBoard (Chess:=Chess) ->
  Forall (fun p => exists s', snd p = JStr s') puts ->
  chess_get (JStr s) (applyPuts puts c) =
    match lastPut s puts with
    | Some piece => Some piece
    | None => chess_get (JStr s) c
    end.
Proof.
  intros (_ & Hsame & Hother) Hstr. revert c.
  induction Hstr as [|[piece square] puts [s' Hs'] _ IH]; intros c; [reflexivity|].
  simpl in Hs'. subst square.
  change (applyPuts ((piece, JStr s') :: puts) c)
    with (applyPuts puts (chess_put piece (JStr s') c)).
  rewrite IH. simpl. destruct (lastPut s puts); [reflexivity|].
  destruct (String.eqb_spec s' s) as [->|Hne]; [apply Hsame | apply Hother; congruence].
Qed.

Lemma lastPut_Some_In (s : string) (puts : list (Piece * JsVal)) (piece : Piece) :
  lastPut s puts = Some piece -> In (piece, JStr s) puts.
Proof.
  induction puts as [|[p sq] puts IH]; simpl; [discriminate|].
  destruct (lastPut s puts) as [later|].
  - intros Hl. inversion Hl; subst. right. now apply IH.
  - destruct sq; try discriminate.
    destruct (String.eqb_spec s0 s) as [->|]; [|discriminate].
    intros Hl. inversion Hl; subst. now left.
Qed.

Lemma In_lastPut (s : string) (puts : list (Piece * JsVal)) (piece : Piece) :
  In (piece, JStr s) puts -> exists p, lastPut s puts = Some p.
Proof.
  induction puts as [|[p sq] puts IH]; simpl; [tauto|].
  intros [Heq | Hin].
  - inversion Heq; subst. destruct (lastPut s puts); [eauto|].
    rewrite String.eqb_refl. eauto.
  - destruct (IH Hin) as [p' ->]. eauto.
Qed.

(** Where a cell of a grid within the board is put. *)
Lemma withinBoard_cell (array : list (list string)) (i j : nat)
    (array_i : list string) (cell : string) :
  withinBoard array -> array !! i = Some array_i -> array_i !! j = Some cell ->
  (i < 8)%nat /\ (j < 8)%nat.
Proof.
  intros [Hrows Hcols] Hi Hj. split.
  - apply lookup_lt_Some in Hi. lia.
  - rewrite Forall_forall in Hcols.
    assert (length array_i <= 8)%nat as Hlen
      by (apply Hcols, list_elem_of_lookup; eauto).
    apply lookup_lt_Some in Hj. lia.
Qed.

Lemma placements_on_squares (array : list (list string)) :
  filesDistinct cfg -> withinBoard array ->
  Forall (fun p => exists s', snd p = JStr s') (placements cfg array).
Proof.
  intros Hd Hw. apply Forall_forall. intros [piece sq] Hin.
  apply list_elem_of_In, In_placementsFrom in Hin
    as (i & j & array_i & cell & Hi & Hj & Hp).
  destruct (withinBoard_cell array i j array_i cell Hw Hi Hj) as [Hi8 Hj8].
  unfold placementAt in Hp. destruct (recognized cfg cell); [|discriminate].
  inversion Hp; subst. simpl.
  destruct (Hd (Z.of_nat j) (Z.of_nat j)) as [Hsome _]; [lia | lia |].
  destruct (strAt (cols cfg) (Z.of_nat j)) as [letter|]; [|congruence].
  simpl. eauto.
Qed.

(** The squares that hold a piece after [loadArray], shared by the two
    theorems below. *)
Lemma squares_after_loadArray (array : list (list string)) g (s : string) (piece : Piece) :
  lawfulBoard (Chess:=Chess) -> filesDistinct cfg -> withinBoard array ->
  chess_get (JStr s) (chess (loadArray cfg array g)) = Some piece <->
  exists (i j : nat) (array_i : list string) (cell : string),
    array !! i = Some array_i /\ array_i !! j = Some cell /\
    recognized cfg cell = true /\ piece = pieceOfCell cfg cell /\
    jsPlus (strAt (cols cfg) (Z.of_nat j)) (8 - Z.of_nat i) = JStr s.
Proof.
  intros Hlaw Hd Hw.
  rewrite loadArray_chess, (get_applyPuts s _ _ Hlaw (placements_on_squares array Hd Hw)).
  destruct Hlaw as (Hclear & _ & _). rewrite Hclear.
  assert (forall p, In (p, JStr s) (placements cfg array) <->
            exists (i j : nat) (array_i : list string) (cell : string),
              array !! i = Some array_i /\ array_i !! j = Some cell /\
              recognized cfg cell = true /\ p = pieceOfCell cfg cell /\
              jsPlus (strAt (cols cfg) (Z.of_nat j)) (8 - Z.of_nat i) = JStr s) as Hin.
  { intros p. unfold placements. rewrite In_placementsFrom.
    split; intros (i & j & array_i & cell & Hi & Hj & Hrest); exists i, j, array_i, cell;
      (split; [exact Hi|]; split; [exact Hj|]).
    - change (0 + Z.of_nat i) with (Z.of_nat i) in Hrest. unfold placementAt in Hrest.
      destruct (recognized cfg cell); [|discriminate]. inversion Hrest; subst. auto.
    - destruct Hrest as (Hrec & -> & Hsq). change (0 + Z.of_nat i) with (Z.of_nat i).
      unfold placementAt. now rewrite Hrec, Hsq. }
  split.
  - destruct (lastPut s (placements cfg array)) as [p|] eqn:El; [|discriminate].
    intros Hp. inversion Hp; subst p. apply Hin. now apply lastPut_Some_In.
  - intros Hex. pose proof (proj2 (Hin piece) Hex) as Hpiece.
    destruct (In_lastPut s _ piece Hpiece) as [p Hp]. rewrite Hp. f_equal.
    apply lastPut_Some_In, Hin in Hp as (i' & j' & array_i' & cell' & Hi' & Hj' & _ & -> & Hsq').
    destruct Hex as (i & j & array_i & cell & Hi & Hj & _ & -> & Hsq).
    destruct (withinBoard_cell array i j array_i cell Hw Hi Hj) as [Hi8 Hj8].
    destruct (withinBoard_cell array i' j' array_i' cell' Hw Hi' Hj') as [Hi8' Hj8'].
    assert (Z.of_nat j' = Z.of_nat j /\ 8 - Z.of_nat i' = 8 - Z.of_nat i) as [Ej Ei]
      by (apply (square_name_inj cfg); [exact Hd | lia.. | congruence]).
    assert (i' = i) as -> by lia. assert (j' = j) as -> by lia.
    congruence.
Qed.

(** X12.  Round trip through the engine.  On an engine that keeps its board the
    way a map does, with eight distinct column letters and a grid of at
    most eight rows of at most eight cells, the squares that hold a piece
    after [loadArray] are exactly the squares of the recognised cells,
    each with the piece of its cell: file [cols[j]] and rank [8 - i] for
    the cell at row [i], column [j].  Every other square is empty. *)
Theorem loadArray_reads_back (array : list (list string)) g (s : string) (piece : Piece) :
  lawfulBoard (Chess:=Chess) -> filesDistinct cfg -> withinBoard array ->
  chess_get (JStr s) (chess (loadArray cfg array g)) = Some piece <->
  exists (i j : nat) (array_i : list string) (cell : string),
    array !! i = Some array_i /\ array_i !! j = Some cell /\
    recognized cfg cell = true /\ piece = pieceOfCell cfg cell /\
    jsPlus (strAt (cols cfg) (Z.of_nat j)) (8 - Z.of_nat i) = JStr s.
Proof.
  intros Hlaw Hd Hw. split; intros H.
  - now apply (squares_after_loadArray array g s piece Hlaw Hd Hw).
  - now apply (squares_after_loadArray array g s piece Hlaw Hd Hw).
Qed.

(** X13.  From the grid to the picture.  Under the same assumptions, after
    [loadArray] the render finds in the cell that shows the square of
    grid row [r], column [c] the piece of that grid cell if its code is
    recognised, and no piece otherwise.  That cell is drawn at pixel
    column [c], pixel row [r] (from the top) when [this.flipped] is false,
    so the picture then shows the grid as written, and at pixel column
    [7 - c], pixel row [7 - r] when [this.flipped] is true. *)
Theorem loadArray_then_render (array : list (list string)) g (r c : nat)
    (array_r : list string) (cell : string) :
  lawfulBoard (Chess:=Chess) -> filesDistinct cfg -> withinBoard array ->
  array !! r = Some array_r -> array_r !! c = Some cell ->
  let g' := loadArray cfg array g in
  let i := if flipped g then Z.of_nat r else 7 - Z.of_nat r in
  let j := if flipped g then 7 - Z.of_nat c else Z.of_nat c in
  0 <= i < 8 /\ 0 <= j < 8 /\
  pieceAt cfg g' i j = (if recognized cfg cell then Some (pieceOfCell cfg cell) else None) /\
  cellX g' j = (size g / 8 * inject_Z (if flipped g then 7 - Z.of_nat c else Z.of_nat c))%Q /\
  cellY g' i = (size g / 8 * inject_Z (if flipped g then 7 - Z.of_nat r else Z.of_nat r))%Q.
Proof.
  intros Hlaw Hd Hw Hr Hc g' i j.
  destruct (withinBoard_cell array r c array_r cell Hw Hr Hc) as [Hr8 Hc8].
  assert (squareAt cfg g' i j = jsPlus (strAt (cols cfg) (Z.of_nat c)) (8 - Z.of_nat r))
    as Hsq.
  { unfold squareAt, i, j, g'. change (flipped (loadArray cfg array g)) with (flipped g).
    unfold col, row. destruct (flipped g); f_equal; try f_equal; lia. }
  split; [unfold i; destruct (flipped g); lia|].
  split; [unfold j; destruct (flipped g); lia|].
  split; [|split].
  - unfold pieceAt. rewrite Hsq.
    destruct (Hd (Z.of_nat c) (Z.of_nat c)) as [Hsome _]; [lia | lia |].
    destruct (strAt (cols cfg) (Z.of_nat c)) as [letter|] eqn:El; [|congruence].
    simpl jsPlus.
    destruct (recognized cfg cell) eqn:Erec.
    + assert (chess_get (JStr (letter +:+ numToString (8 - Z.of_nat r))) (chess g')
              = Some (pieceOfCell cfg cell)) as ->.
      { apply (squares_after_loadArray array g); try assumption.
        exists r, c, array_r, cell. rewrite El. auto. }
      now rewrite pieceOfCell_drawable.
    + destruct (chess_get _ (chess g')) as [piece|] eqn:Eg; [|reflexivity].
      apply (squares_after_loadArray array g) in Eg; try assumption.
      destruct Eg as (i' & j' & array_i' & cell' & Hi' & Hj' & Hrec' & _ & Hsq').
      destruct (withinBoard_cell array i' j' array_i' cell' Hw Hi' Hj') as [Hi8' Hj8'].
      assert (Z.of_nat j' = Z.of_nat c /\ 8 - Z.of_nat i' = 8 - Z.of_nat r) as [Ej Ei]
        by (apply (square_name_inj cfg); [exact Hd | lia.. | rewrite El; exact Hsq']).
      assert (i' = r) as -> by lia. assert (j' = c) as -> by lia.
      congruence.
  - unfold cellX, j, g'. reflexivity.
  - unfold cellY, i, g'. change (size (loadArray cfg array g)) with (size g).
    destruct (flipped g); [reflexivity|]. do 2 f_equal. lia.
Qed.

End ReadBack.

(** * Worked examples on the sample collaborators *)

Lemma specConfig_filesDistinct : filesDistinct specConfig.
Proof.
  intros j j' Hj Hj'.
  assert (j = 0 \/ j = 1 \/ j = 2 \/ j = 3 \/ j = 4 \/ j = 5 \/ j = 6 \/ j = 7) as Cj by lia.
  assert (j' = 0 \/ j' = 1 \/ j' = 2 \/ j' = 3 \/ j' = 4 \/ j' = 5 \/ j' = 6 \/ j' = 7)
    as Cj' by lia.
  clear Hj Hj'.
  repeat (destruct Cj as [-> | Cj]); try subst j;
    repeat (destruct Cj' as [-> | Cj']); try subst j';
    (split; [discriminate | vm_compute; intros Hs; first [reflexivity | discriminate Hs]]).
Qed.

Lemma specConfig_black_no_space (b : ascii) :
  In b (list_ascii_of_string (black specConfig)) -> isSpace b = false.
Proof.
  simpl. intros Hb. repeat (destruct Hb as [<- | Hb]; [reflexivity|]). destruct Hb.
Qed.

Lemma sampleEngine_clearEmptiesBoard : clearEmptiesBoard (Chess:=gmap string Piece).
Proof.
  intros square c. destruct square; reflexivity.
Qed.

Lemma sampleEngine_rejectsAtomically : rejectsAtomically (Chess:=gmap string Piece).
Proof.
  intros text c. simpl. split.
  - destruct (String.eqb text _); [discriminate | reflexivity].
  - destruct (String.eqb text _); [discriminate | reflexivity].
Qed.

(** The render of the starting position with default options: the first
    cell drawn, at the bottom-left of the canvas, is h8 with a black rook. *)
Example startGenerator_first_cell :
  option_map (fun c => firstn 5 (drawn c))
    (match generateCanvas specConfig startGenerator with
     | inr c => Some c
     | inl _ => None
     end) =
  Some [FillRect "rgb(240, 217, 181)" 0 0 480 480;
        FillRect "rgb(181, 136, 99)" (0 # 8) (3360 # 8) (480 # 8) (480 # 8);
        FillText "rgb(240, 217, 181)" (BoldPtArial (480 # 80)) "8"
          (3840 # 1280) (554240 # 1280);
        FillText "rgb(240, 217, 181)" (BoldPtArial (480 # 80)) "h"
          (501760 # 10240) (4884480 # 10240);
        DrawImage "/app/resources/merida/BlackRook.png"
          (0 # 8) (3360 # 8) (480 # 8) (480 # 8)].
Proof. vm_compute. reflexivity. Qed.

Example loadArray_startingGrid_squares :
  chess startGenerator !! "e1" = Some {| piece_type := "k"; piece_color := "w" |} /\
  chess startGenerator !! "a8" = Some {| piece_type := "r"; piece_color := "b" |} /\
  chess startGenerator !! "d7" = Some {| piece_type := "p"; piece_color := "b" |} /\
  chess startGenerator !! "e4" = None.
Proof. repeat split; vm_compute; reflexivity. Qed.

Example string_primitives :
  numToString 8 = "8" /\ numToString 0 = "0" /\ numToString (-1) = "-1" /\
  includes "pbnrqk" "q" = true /\ includes "pbnrqk" "x" = false /\
  includes "PBNRQK" "q" = false /\ toLowerCase "Q" = "q" /\
  jsPlus (strAt "abcdefgh" 4) 4 = JStr "e4" /\ jsPlus (strAt "abcdefgh" 8) 1 = JNaN.
Proof. repeat split; reflexivity. Qed.


(** C2 at the starting position. *)
Lemma square_colouring_witness :
  exists c : Canvas string,
    generateCanvas specConfig startGenerator = inr c /\
    drawn c = FillRect (light startGenerator) 0 0 (size startGenerator) (size startGenerator)
                :: flat_map (fun ij => cellOps specConfig startGenerator (fst ij) (snd ij))
                            cells.
Proof.
  assert (exists c, generateCanvas specConfig startGenerator = inr c) as [c Hc]
    by (vm_compute; eexists; reflexivity).
  exists c. split; [exact Hc|].
  exact (proj1 (proj2 (proj2 (square_colouring specConfig startGenerator c Hc)))).
Defined.

(** C8 at the lone king. *)
Lemma label_drawing_witness :
  exists c : Canvas string,
    generateCanvas specConfig kingGenerator = inr c /\
    drawLabels kingGenerator = true /\
    drawn c = boardFill kingGenerator
                :: flat_map (fun ij => cellOps specConfig kingGenerator (fst ij) (snd ij))
                            cells.
Proof.
  assert (exists c, generateCanvas specConfig kingGenerator = inr c) as [c Hc]
    by (vm_compute; eexists; reflexivity).
  exists c. split; [exact Hc|]. split; [reflexivity|].
  exact (proj1 (label_drawing specConfig kingGenerator c Hc eq_refl)).
Defined.

(** C3 on the reference alphabets: a blank cell places nothing. *)
Lemma loadArray_places_witness :
  chess (loadArray specConfig startingGrid sampleGenerator) =
    applyPuts (placements specConfig startingGrid) (chess_clear (chess sampleGenerator)) /\
  placementAt specConfig 2 3 " " = None.
Proof.
  pose proof (loadArray_places specConfig startingGrid sampleGenerator)
    as (Hchess & _ & _ & _ & Hspace).
  split; [exact Hchess|].
  apply (Hspace specConfig_black_no_space 2 3 " " " "%char); [now left | reflexivity].
Defined.

(** C4 at e4. *)
Lemma getSquareHighlight_resolves_witness :
  isSquareName "e4" /\
  getSquareHighlight (JStr "e4")
    (setHighlightedSquares (Some {[ "e4" := JBool true ]}) sampleGenerator) =
  Some (highlight sampleGenerator).
Proof.
  assert (isSquareName "e4") as Hname
    by (exists "e"%char, 4; split; [lia | reflexivity]).
  split; [exact Hname|].
  exact (proj2 (proj1 (proj2 (proj2 (proj2
           (getSquareHighlight_resolves sampleGenerator "e4" Hname)))))).
Defined.

(** C6 as first stated fails on the replaying engine: after a successful
    [loadPGN("e4 e5")], the text "e4 Qh9" is rejected, the call throws and
    the ready flag stays set, but the board is neither the old position nor
    the new one: the first move has been replayed from the starting
    position (the white pawn stands on e4) and the black pawn, which stood
    on e5, is back on e7. *)
Lemma rejected_pgn_leaves_partial_position :
  ready replayGenerator = true /\
  chess replayGenerator !! "e4" = Some {| piece_type := "p"; piece_color := "w" |} /\
  chess replayGenerator !! "e5" = Some {| piece_type := "p"; piece_color := "b" |} /\
  fst (chess_load_pgn (RulesEngine:=replayEngine) "e4 Qh9" (chess replayGenerator)) = false /\
  fst (loadPGN (RulesEngine0:=replayEngine) "e4 Qh9" replayGenerator)
    = inl (InvalidNotation "PGN") /\
  ready (snd (loadPGN (RulesEngine0:=replayEngine) "e4 Qh9" replayGenerator)) = true /\
  chess (snd (loadPGN (RulesEngine0:=replayEngine) "e4 Qh9" replayGenerator)) !! "e4"
    = Some {| piece_type := "p"; piece_color := "w" |} /\
  chess (snd (loadPGN (RulesEngine0:=replayEngine) "e4 Qh9" replayGenerator)) !! "e5"
    = None /\
  chess (snd (loadPGN (RulesEngine0:=replayEngine) "e4 Qh9" replayGenerator)) !! "e7"
    = Some {| piece_type := "p"; piece_color := "b" |} /\
  chess (snd (loadPGN (RulesEngine0:=replayEngine) "e4 Qh9" replayGenerator))
    <> chess replayGenerator.
Proof.
  repeat split; try (vm_compute; reflexivity).
  intros Heq.
  assert (chess (snd (loadPGN (RulesEngine0:=replayEngine) "e4 Qh9" replayGenerator))
            !! "e5" = chess replayGenerator !! "e5") as He5 by now rewrite Heq.
  vm_compute in He5. discriminate He5.
Qed.

(** C6 on the sample engine: a rejected FEN after a successful load leaves
    the object as it was. *)
Lemma notation_loaders_witness :
  fst (chess_load "not a position" (chess kingGenerator)) = false /\
  fst (loadFEN "not a position" kingGenerator) = inl (InvalidNotation "FEN") /\
  snd (loadFEN "not a position" kingGenerator) = kingGenerator /\
  ready kingGenerator = true.
Proof.
  assert (fst (chess_load "not a position" (chess kingGenerator)) = false) as Hrej
    by reflexivity.
  destruct (proj1 (notation_loaders "not a position" kingGenerator) Hrej)
    as (Herr & _ & _ & Hsame).
  split; [exact Hrej|]. split; [exact Herr|].
  split; [exact (Hsame sampleEngine_rejectsAtomically) | reflexivity].
Defined.

(** C10 on the empty array. *)
Lemma loadArray_always_ready_witness :
  exists c : Canvas string,
    generateCanvas specConfig (loadArray specConfig [] kingGenerator) = inr c /\
    generateBuffer specConfig (loadArray specConfig [] kingGenerator) = inr (toBuffer c) /\
    Forall (fun op => isDrawImage op = false) (drawn c).
Proof.
  destruct (loadArray_always_ready specConfig [] kingGenerator "board.png")
    as (_ & _ & _ & Hempty & Hrender).
  exact (proj2 (Hrender Hempty) sampleEngine_clearEmptiesBoard).
Defined.

(** The two variants on the starting position. *)
Lemma variants_render_alike_witness :
  Base.generateCanvas specConfig startGenerator = generateCanvas specConfig startGenerator.
Proof.
  apply (variants_render_alike specConfig startGenerator).
  intros i j. unfold highlightLayer, getSquareHighlight. simpl highlightedSquares.
  destruct (negb (truthy _)); [reflexivity|]. now rewrite lookup_empty.
Defined.

(** ** The further properties on the sample collaborators *)

Lemma sampleEngine_lawfulBoard : lawfulBoard (Chess:=gmap string Piece).
Proof.
  split; [|split].
  - intros s c. reflexivity.
  - intros piece s c. simpl. apply lookup_insert_eq.
  - intros piece s s' c Hne. simpl. apply lookup_insert_ne. congruence.
Qed.

Lemma startingGrid_withinBoard : withinBoard startingGrid.
Proof.
  split; [simpl; lia|]. repeat constructor.
Qed.

Lemma squares_have_conventional_colour_witness :
  squareAt specConfig sampleGenerator 7 7 = JStr "a1" /\
  darkSquareLayer (Image:=string) sampleGenerator 7 7 =
    [FillRect (dark sampleGenerator) (cellX sampleGenerator 7) (cellY sampleGenerator 7)
       (cellSide sampleGenerator) (cellSide sampleGenerator)].
Proof.
  destruct (squares_have_conventional_colour (Image:=string) specConfig sampleGenerator 7 7
              ltac:(lia) ltac:(lia)) as (_ & _ & Hsq & Hdark).
  split; [exact Hsq | exact Hdark].
Defined.

Lemma placed_pieces_are_drawable_witness :
  drawable specConfig (pieceOfCell specConfig "Q") = true.
Proof.
  exact (proj1 (placed_pieces_are_drawable specConfig "Q") eq_refl).
Defined.

Lemma loadArray_does_not_bound_the_grid_witness :
  In ({| piece_type := "q"; piece_color := "b" |}, JNaN) (placements specConfig wideGrid).
Proof.
  exact (proj1 (loadArray_does_not_bound_the_grid specConfig wideGrid 0 8
                  [""; ""; ""; ""; ""; ""; ""; ""; "q"] "q" eq_refl eq_refl eq_refl)
               ltac:(simpl; lia)).
Defined.

Lemma resolved_highlight_is_drawn_witness :
  highlightLayer (Image:=string) specConfig
    (setHighlightedSquares (Some {[ "h8" := JBool true ]}) sampleGenerator) 0 0 =
  [FillRect (highlight sampleGenerator) (cellX sampleGenerator 0) (cellY sampleGenerator 0)
     (cellSide sampleGenerator) (cellSide sampleGenerator)].
Proof.
  assert (highlight (setHighlightedSquares (Some {[ "h8" := JBool true ]}) sampleGenerator)
          <> "") as Hne by discriminate.
  exact (proj2 (proj2 (resolved_highlight_is_drawn (Image:=string) specConfig _ Hne)) 0 0).
Defined.

Lemma session_keeps_configuration_witness :
  chess (session specConfig [CallSetHighlightedSquares None; CallGenerateBuffer] kingGenerator)
    = chess kingGenerator /\
  ready (session specConfig [CallSetHighlightedSquares None; CallGenerateBuffer] kingGenerator)
    = ready kingGenerator.
Proof.
  exact (proj2 (proj2 (session_keeps_configuration specConfig
                         [CallSetHighlightedSquares None; CallGenerateBuffer] kingGenerator))
               eq_refl).
Defined.

Lemma generator_fields_are_truthy_witness :
  highlight (session specConfig [CallLoadArray startingGrid]
               (ChessImageGenerator (Chess:=gmap string Piece) specConfig noOptions)) <> "".
Proof.
  assert (forall s : string, String.eqb s "" = false -> s <> "") as Hne
    by (intros s Hs ->; discriminate Hs).
  exact (proj1 (proj2 (proj2 (generator_fields_are_truthy specConfig noOptions
                         [CallLoadArray startingGrid]
                         (Hne (defaultLight specConfig) eq_refl)
                         (Hne (defaultDark specConfig) eq_refl)
                         (Hne (defaultHighlight specConfig) eq_refl)
                         (Hne (defaultStyle specConfig) eq_refl)
                         eq_refl)))).
Defined.

Lemma render_succeeds_iff_witness :
  returned (generateBuffer specConfig startGenerator) = true /\
  returned (generateBuffer (Rasterizer0:=whiteOnlyRasterizer) specConfig startGenerator) = false.
Proof.
  split.
  - apply (proj2 (render_succeeds_iff specConfig startGenerator)).
    split; [reflexivity|]. intros i j piece _ _ _. eexists. reflexivity.
  - vm_compute. reflexivity.
Defined.

Lemma render_failure_names_first_sprite_witness :
  exists (i j : Z) (piece : Piece),
    0 <= i < 8 /\ 0 <= j < 8 /\ pieceAt specConfig startGenerator i j = Some piece /\
    loadImage (Rasterizer:=whiteOnlyRasterizer)
      (pathJoin "/app" (spritePath specConfig startGenerator piece)) = None /\
    ImageLoadFailure "/app/resources/merida/BlackRook.png" =
      ImageLoadFailure (pathJoin "/app" (spritePath specConfig startGenerator piece)).
Proof.
  assert (generateBuffer (Rasterizer0:=whiteOnlyRasterizer) specConfig startGenerator
          = inl (ImageLoadFailure "/app/resources/merida/BlackRook.png")) as Hfail
    by (vm_compute; reflexivity).
  destruct (render_failure_names_first_sprite (Rasterizer0:=whiteOnlyRasterizer)
              specConfig startGenerator _ Hfail eq_refl)
    as (i & j & piece & Hi & Hj & Hp & Hl & He & _).
  exists i, j, piece. auto.
Defined.

Lemma cells_tile_the_canvas_witness :
  (cellX sampleGenerator 7 + cellSide sampleGenerator <= size sampleGenerator)%Q /\
  (cellX sampleGenerator 3 + cellSide sampleGenerator <= cellX sampleGenerator 4)%Q.
Proof.
  assert (0 <= 480 <= 2 ^ 50) as Hn by (split; discriminate).
  assert (size sampleGenerator == inject_Z 480)%Q as Hwhole by reflexivity.
  destruct (cells_tile_the_canvas (Image:=string) specConfig sampleGenerator 480 Hn Hwhole)
    as (Hin & Hcols & _).
  split; [apply (Hin 7 7); lia | apply Hcols; lia].
Defined.

Lemma render_census_witness :
  exists c : Canvas string,
    generateCanvas specConfig startGenerator = inr c /\ (length (drawn c) <= 177)%nat.
Proof.
  assert (exists c, generateCanvas specConfig startGenerator = inr c) as [c Hc]
    by (vm_compute; eexists; reflexivity).
  exists c. split; [exact Hc|].
  exact (proj2 (proj2 (proj2 (proj2 (proj2 (proj2
           (render_census specConfig startGenerator c Hc))))))).
Defined.

Lemma loadArray_reads_back_witness :
  chess_get (JStr "e1") (chess (loadArray specConfig startingGrid sampleGenerator)) =
  Some (pieceOfCell specConfig "K").
Proof.
  apply (proj2 (loadArray_reads_back specConfig startingGrid sampleGenerator "e1"
                  (pieceOfCell specConfig "K")
                  sampleEngine_lawfulBoard specConfig_filesDistinct
                  startingGrid_withinBoard)).
  exists 7%nat, 4%nat, ["R"; "N"; "B"; "Q"; "K"; "B"; "N"; "R"], "K".
  repeat split.
Defined.

Lemma loadArray_then_render_witness :
  flipped sampleGenerator = true /\
  pieceAt specConfig (loadArray specConfig startingGrid sampleGenerator) 7 3 =
  Some (pieceOfCell specConfig "K").
Proof.
  split; [reflexivity|].
  exact (proj1 (proj2 (proj2
           (loadArray_then_render specConfig startingGrid sampleGenerator 7 4
              ["R"; "N"; "B"; "Q"; "K"; "B"; "N"; "R"] "K"
              sampleEngine_lawfulBoard specConfig_filesDistinct startingGrid_withinBoard
              eq_refl eq_refl)))).
Defined.
